(** * ThatBot chat client: the conversation controller of [frontend/src/App.js]

    A shallow embedding of the React component [App]: its state hooks become
    one record, every handler becomes a computation in a small
    state / exception / effect-log monad, and the two asynchronous handlers
    ([fetchHistory], [handleSend]) are cut at their [await] points into the
    part that runs when the handler is invoked and the part that runs when
    the awaited promise settles. *)

From Stdlib Require Import NArith List Bool String Ascii Lia.
From stdpp Require Import base list gmap.
Import ListNotations.

Local Open Scope N_scope.
Local Open Scope list_scope.

(** ** JavaScript strings

    A JS string is a sequence of UTF-16 code units. *)

Module JS.

Definition code_unit : Type := N.
Definition jsstring : Type := list code_unit.

(** String literals of the source, all ASCII. *)
Definition lit (s : string) : jsstring :=
  map N_of_ascii (list_ascii_of_string s).
Arguments lit s%_string.

(** ECMAScript [WhiteSpace]: TAB, VT, FF, ZWNBSP and the space separators
    (category Zs). *)
Definition isWhiteSpace (c : code_unit) : bool :=
  (c =? 0x9) || (c =? 0xB) || (c =? 0xC) || (c =? 0x20) || (c =? 0xA0)
  || (c =? 0x1680) || ((0x2000 <=? c) && (c <=? 0x200A))
  || (c =? 0x202F) || (c =? 0x205F) || (c =? 0x3000) || (c =? 0xFEFF).

(** ECMAScript [LineTerminator]: LF, CR, LS, PS. *)
Definition isLineTerminator (c : code_unit) : bool :=
  (c =? 0xA) || (c =? 0xD) || (c =? 0x2028) || (c =? 0x2029).

(** What [String.prototype.trim] strips. *)
Definition isStrWhiteSpaceChar (c : code_unit) : bool :=
  isWhiteSpace c || isLineTerminator c.

Fixpoint trimStart (s : jsstring) : jsstring :=
  match s with
  | [] => []
  | c :: s' => if isStrWhiteSpaceChar c then trimStart s' else s
  end.

Definition trimEnd (s : jsstring) : jsstring := rev (trimStart (rev s)).

(** [s.trim()] *)
Definition trim (s : jsstring) : jsstring := trimEnd (trimStart s).

(** [s.startsWith(p)] *)
Fixpoint startsWith (s p : jsstring) : bool :=
  match p, s with
  | [], _ => true
  | _ :: _, [] => false
  | c :: p', d :: s' => (d =? c) && startsWith s' p'
  end.

(** [s === ''] *)
Definition is_empty (s : jsstring) : bool :=
  match s with [] => true | _ :: _ => false end.

(** Truthiness of a value that is a string, [null] or [undefined]
    ([None] stands for both): only a non-empty string is truthy. *)
Definition truthy (v : option jsstring) : bool :=
  match v with
  | Some (_ :: _) => true
  | _ => false
  end.

(** [v || d] on such a value, with a string default. *)
Definition or_else (v : option jsstring) (d : jsstring) : jsstring :=
  match v with
  | Some (c :: s) => c :: s
  | _ => d
  end.

(** [!!v] on an object reference that may be [null]. *)
Definition present {A} (v : option A) : bool :=
  match v with Some _ => true | None => false end.

(** [hay.includes(needle)], as a proposition. *)
Definition includes (hay needle : jsstring) : Prop :=
  exists pre post, hay = pre ++ needle ++ post.

Definition all_white (s : jsstring) : Prop :=
  Forall (fun c => isStrWhiteSpaceChar c = true) s.

End JS.
Import JS.

(** ** Data model *)

Inductive Sender : Type := user | bot.

(** A message object [{ sender, text, image }]; a field that is absent,
    [undefined] or [null] is [None]. *)
Record Message : Type := {
  sender : Sender;
  text : option jsstring;
  image : option jsstring
}.

(** The part of a DOM [File] the component looks at. *)
Record File : Type := {
  file_name : jsstring;
  file_type : jsstring
}.

Inductive AppStatus : Type := Loading | Ready | Error.

(** The [useState] hooks of [App], lines 16-25. *)
Record State : Type := {
  messages : list Message;
  input : jsstring;
  isLoading : bool;
  isListening : bool;
  selectedFile : option File;
  filePreview : option jsstring;
  sessionId : option jsstring;
  appStatus : AppStatus
}.

(** The module-level [recognition] object (lines 7-13), [None] when the
    browser has no [SpeechRecognition]. *)
Record Recognition : Type := {
  continuous : bool;
  lang : jsstring;
  interimResults : bool
}.

Definition new_SpeechRecognition : Recognition :=
  {| continuous := false; lang := lit "en-US"; interimResults := false |}.

(** ** The backend as the component sees it *)

Record JsError : Type := new_Error { message : jsstring }.

(** A settled promise. *)
Inductive settled (A : Type) : Type :=
| Fulfilled (v : A)
| Rejected (e : JsError).
Arguments Fulfilled {A} v.
Arguments Rejected {A} e.

(** A parsed JSON body, restricted to the shapes of the two endpoints: an
    array of messages ([GET /history]) or an object whose [reply] and [error]
    fields, when present, are strings ([POST /chat] and every error body). *)
Inductive JsonBody : Type :=
| JArray (items : list Message)
| JObject (reply error : option jsstring).

Record Response : Type := {
  ok : bool;
  json : settled JsonBody
}.

(** How a [fetch] settles. *)
Definition fetch_result : Type := settled Response.

(** [data.reply] *)
Definition get_reply (data : JsonBody) : option jsstring :=
  match data with
  | JArray _ => None
  | JObject r _ => r
  end.

(** [data.error] *)
Definition get_error (data : JsonBody) : option jsstring :=
  match data with
  | JArray _ => None
  | JObject _ e => e
  end.

(** [history.length > 0]; an object has no [length], and
    [undefined > 0] is false. *)
Definition length_gt_0 (history : JsonBody) : bool :=
  match history with
  | JArray (_ :: _) => true
  | _ => false
  end.

(** The messages in a body that passed [length_gt_0]. *)
Definition items_of (history : JsonBody) : list Message :=
  match history with
  | JArray l => l
  | JObject _ _ => []
  end.

(** ** Effects on the world outside the component state *)

Inductive form_value : Type :=
| FormText (s : jsstring)
| FormFile (f : File).

(** A [FormData]: the fields in the order they were appended. *)
Definition FormData : Type := list (jsstring * form_value).

Inductive effect : Type :=
| alert (msg : jsstring)
| console_error (label detail : jsstring)
| localStorage_setItem (key value : jsstring)
| fetch_history (id : jsstring)
| fetch_chat (body : FormData)
| recognition_start
| recognition_stop
| file_input_reset.

(** ** The handler monad: state, thrown errors, and a log of effects *)

Inductive completion (A : Type) : Type :=
| Normal (a : A)
| Throw (e : JsError).
Arguments Normal {A} a.
Arguments Throw {A} e.

Definition M (A : Type) : Type := State -> completion A * State * list effect.

Definition ret {A} (a : A) : M A := fun st => (Normal a, st, []).

Definition bind {A B} (m : M A) (k : A -> M B) : M B :=
  fun st =>
    match m st with
    | (Normal a, st1, e1) =>
        match k a st1 with
        | (c, st2, e2) => (c, st2, e1 ++ e2)
        end
    | (Throw err, st1, e1) => (Throw err, st1, e1)
    end.

Declare Scope handler_scope.
Delimit Scope handler_scope with handler.
Notation "x <- m ;; k" := (bind m (fun x => k))
  (at level 100, m at next level, right associativity) : handler_scope.
Notation "m ;; k" := (bind m (fun _ => k))
  (at level 100, right associativity) : handler_scope.
Local Open Scope handler_scope.

Definition throw {A} (err : JsError) : M A := fun st => (Throw err, st, []).
Definition emit (e : effect) : M unit := fun st => (Normal tt, st, [e]).
Definition get : M State := fun st => (Normal st, st, []).
Definition modify (f : State -> State) : M unit := fun st => (Normal tt, f st, []).

(** [await p] *)
Definition await {A} (p : settled A) : M A :=
  match p with
  | Fulfilled v => ret v
  | Rejected err => throw err
  end.

(** [try { body } catch (error) { handler }] *)
Definition try_catch (body : M unit) (handler : JsError -> M unit) : M unit :=
  fun st =>
    match body st with
    | (Normal a, st1, e1) => (Normal a, st1, e1)
    | (Throw err, st1, e1) =>
        match handler err st1 with
        | (c, st2, e2) => (c, st2, e1 ++ e2)
        end
    end.

(** [try { body } catch (error) { handler } finally { fin }]: [fin] runs
    however the [try]/[catch] part completes, and an error thrown by [fin]
    replaces that completion. *)
Definition try_catch_finally (body : M unit) (handler : JsError -> M unit)
    (fin : M unit) : M unit :=
  fun st =>
    match try_catch body handler st with
    | (c, st1, e1) =>
        match fin st1 with
        | (Normal _, st2, e2) => (c, st2, e1 ++ e2)
        | (Throw err, st2, e2) => (Throw err, st2, e1 ++ e2)
        end
    end.

(** The state setters. [setMessages] takes the updater function; the call
    [setMessages(value)] is the constant updater. *)
Definition setMessages (f : list Message -> list Message) : M unit :=
  modify (fun st =>
    {| messages := f (messages st); input := input st;
       isLoading := isLoading st; isListening := isListening st;
       selectedFile := selectedFile st; filePreview := filePreview st;
       sessionId := sessionId st; appStatus := appStatus st |}).

Definition setInput (v : jsstring) : M unit :=
  modify (fun st =>
    {| messages := messages st; input := v;
       isLoading := isLoading st; isListening := isListening st;
       selectedFile := selectedFile st; filePreview := filePreview st;
       sessionId := sessionId st; appStatus := appStatus st |}).

Definition setIsLoading (v : bool) : M unit :=
  modify (fun st =>
    {| messages := messages st; input := input st;
       isLoading := v; isListening := isListening st;
       selectedFile := selectedFile st; filePreview := filePreview st;
       sessionId := sessionId st; appStatus := appStatus st |}).

Definition setIsListening (v : bool) : M unit :=
  modify (fun st =>
    {| messages := messages st; input := input st;
       isLoading := isLoading st; isListening := v;
       selectedFile := selectedFile st; filePreview := filePreview st;
       sessionId := sessionId st; appStatus := appStatus st |}).

Definition setSelectedFile (v : option File) : M unit :=
  modify (fun st =>
    {| messages := messages st; input := input st;
       isLoading := isLoading st; isListening := isListening st;
       selectedFile := v; filePreview := filePreview st;
       sessionId := sessionId st; appStatus := appStatus st |}).

Definition setFilePreview (v : option jsstring) : M unit :=
  modify (fun st =>
    {| messages := messages st; input := input st;
       isLoading := isLoading st; isListening := isListening st;
       selectedFile := selectedFile st; filePreview := v;
       sessionId := sessionId st; appStatus := appStatus st |}).

Definition setSessionId (v : option jsstring) : M unit :=
  modify (fun st =>
    {| messages := messages st; input := input st;
       isLoading := isLoading st; isListening := isListening st;
       selectedFile := selectedFile st; filePreview := filePreview st;
       sessionId := v; appStatus := appStatus st |}).

Definition setAppStatus (v : AppStatus) : M unit :=
  modify (fun st =>
    {| messages := messages st; input := input st;
       isLoading := isLoading st; isListening := isListening st;
       selectedFile := selectedFile st; filePreview := filePreview st;
       sessionId := sessionId st; appStatus := v |}).

(** ** The component *)

Definition initial_state : State :=
  {| messages := []; input := []; isLoading := false; isListening := false;
     selectedFile := None; filePreview := None; sessionId := None;
     appStatus := Loading |}.

Definition greeting : Message :=
  {| sender := bot;
     text := Some (lit "Hello! I am ThatBot. How can I help you?");
     image := None |}.

(** Which of the three views [App] returns (lines 146-197); the main view is
    the only one that mounts the input area, so [fileInputRef.current] is set
    exactly then. *)
Definition main_view (st : State) : bool :=
  match appStatus st with
  | Ready => true
  | _ => false
  end.

Definition fileInputRef_current (st : State) : bool := main_view st.

(** The first effect up to the call of [fetchHistory] (lines 31-36, 59, 40).
    [stored] is [localStorage.getItem('chatSessionId')]; [now] and [rnd] are
    the printed [Date.now()] and
    [Math.random().toString(36).substr(2, 9)]. *)
Definition mount (stored : option jsstring) (now rnd : jsstring) : M unit :=
  currentSessionId <-
    (if negb (truthy stored) then
       let id := lit "session_" ++ now ++ lit "_" ++ rnd in
       emit (localStorage_setItem (lit "chatSessionId") id) ;;
       ret id
     else ret (or_else stored [])) ;;
  setSessionId (Some currentSessionId) ;;
  emit (fetch_history currentSessionId).

(** [fetchHistory] from the point where its [fetch] settles (lines 39-56). *)
Definition fetchHistory_resume (settles : fetch_result) : M unit :=
  try_catch
    (response <- await settles ;;
     if ok response then
       history <- await (json response) ;;
       (if length_gt_0 history
        then setMessages (fun _ => items_of history)
        else setMessages (fun _ => [greeting])) ;;
       setAppStatus Ready
     else
       err <- await (json response) ;;
       throw (new_Error (or_else (get_error err) (lit "Failed to fetch history"))))
    (fun error =>
       emit (console_error (lit "Failed to fetch history:") (message error)) ;;
       setAppStatus Error).

(** [handleVoiceListen] (lines 74-83). *)
Definition handleVoiceListen (recognition : option Recognition) : M unit :=
  st <- get ;;
  match recognition with
  | None => emit (alert (lit "Voice recognition is not supported in this browser."))
  | Some _ =>
      (if isListening st then emit recognition_stop
       else (setInput [] ;; emit recognition_start)) ;;
      setIsListening (negb (isListening st))
  end.

(** [handleFileChange] (lines 85-93); [files] is [event.target.files] and
    [objectURL] is what [URL.createObjectURL(file)] returns. *)
Definition handleFileChange (files : list File) (objectURL : jsstring) : M unit :=
  match hd_error files with
  | Some file =>
      if startsWith (file_type file) (lit "image/") then
        setSelectedFile (Some file) ;;
        setFilePreview (Some objectURL)
      else emit (alert (lit "Please select an image file."))
  | None => ret tt
  end.

(** [removeFile] (lines 95-99). *)
Definition removeFile : M unit :=
  setSelectedFile None ;;
  setFilePreview None ;;
  st <- get ;;
  if fileInputRef_current st then emit file_input_reset else ret tt.

(** The guard of [handleSend], line 103: [true] when the handler returns at
    once. *)
Definition send_guard (st : State) : bool :=
  let textInput := trim (input st) in
  (is_empty textInput && negb (present (selectedFile st)))
  || negb (truthy (sessionId st)).

(** [userMessage], line 106, from the values in the handler's closure. *)
Definition userMessage (st : State) : Message :=
  {| sender := user; text := Some (trim (input st)); image := filePreview st |}.

(** [formData], lines 109-114, from the values in the handler's closure. *)
Definition formData (st : State) : FormData :=
  [(lit "sessionId", FormText (or_else (sessionId st) []));
   (lit "message", FormText (trim (input st)))]
  ++ match selectedFile st with
     | Some file => [(lit "file", FormFile file)]
     | None => []
     end.

(** [handleSend] up to the call of [fetch] (lines 102-123). The values read
    from the closure ([input], [selectedFile], [filePreview], [sessionId])
    are those of the state the handler was invoked in. Returns the request
    body when a request was issued. *)
Definition handleSend_begin : M (option FormData) :=
  st <- get ;;
  if send_guard st then ret None
  else
    setIsLoading true ;;
    setMessages (fun prev => prev ++ [userMessage st]) ;;
    setInput [] ;;
    removeFile ;;
    emit (fetch_chat (formData st)) ;;
    ret (Some (formData st)).

(** [botMessage], line 128. *)
Definition botMessage (data : JsonBody) : Message :=
  {| sender := bot; text := get_reply data; image := None |}.

(** [errorMessage], line 132. *)
Definition errorMessage (error : JsError) : Message :=
  {| sender := bot;
     text := Some (lit "Sorry, something went wrong: " ++ message error);
     image := None |}.

(** [handleSend] from the point where its [fetch] settles (lines 119-136). *)
Definition handleSend_resume (settles : fetch_result) : M unit :=
  try_catch_finally
    (response <- await settles ;;
     data <- await (json response) ;;
     if negb (ok response) then
       throw (new_Error (or_else (get_error data) (lit "Network response was not ok")))
     else
       setMessages (fun prev => prev ++ [botMessage data]))
    (fun error =>
       emit (console_error (lit "Error fetching data:") (message error)) ;;
       setMessages (fun prev => prev ++ [errorMessage error]))
    (setIsLoading false).

(** One whole call of [handleSend] with nothing else running while it
    waits; [settles] is how its request settles. *)
Definition handleSend (settles : fetch_result) : M unit :=
  issued <- handleSend_begin ;;
  match issued with
  | None => ret tt
  | Some _ => handleSend_resume settles
  end.

(** [key === 'Enter'] *)
Fixpoint str_eq (s t : jsstring) : bool :=
  match s, t with
  | [], [] => true
  | c :: s', d :: t' => (c =? d) && str_eq s' t'
  | _, _ => false
  end.

(** [handleKeyPress] (lines 139-144). *)
Definition handleKeyPress (key : jsstring) (shiftKey : bool) : M (option FormData) :=
  if str_eq key (lit "Enter") && negb shiftKey then handleSend_begin
  else ret None.

(** The [disabled] attribute of the send button, line 193. *)
Definition send_button_disabled (st : State) : bool :=
  isLoading st
  || (is_empty (trim (input st)) && negb (present (selectedFile st))).

(** ** Outcomes named by the specification *)

(** The request of a send failed: the [fetch] rejected (network error), the
    body could not be read, or the response is not 2xx. *)
Definition request_failed (settles : fetch_result) : bool :=
  match settles with
  | Rejected _ => true
  | Fulfilled r =>
      match json r with
      | Rejected _ => true
      | Fulfilled _ => negb (ok r)
      end
  end.

(** The reason of a failure: the message of the error that rejected the
    promise, or the [error] string of the non-2xx body, or the fixed text
    when that body carries none. *)
Definition failure_reason (settles : fetch_result) : jsstring :=
  match settles with
  | Rejected err => message err
  | Fulfilled r =>
      match json r with
      | Rejected err => message err
      | Fulfilled data => or_else (get_error data) (lit "Network response was not ok")
      end
  end.

(** The history load succeeded with the sequence [items]. *)
Definition history_loaded (items : list Message) : fetch_result :=
  Fulfilled {| ok := true; json := Fulfilled (JArray items) |}.

(** The history load failed: transport error, unreadable body or non-2xx. *)
Definition history_failed (settles : fetch_result) : bool :=
  match settles with
  | Rejected _ => true
  | Fulfilled r =>
      match json r with
      | Rejected _ => true
      | Fulfilled _ => negb (ok r)
      end
  end.

(** The backend answered 2xx with [{reply: r}]. *)
Definition replied (r : jsstring) : fetch_result :=
  Fulfilled {| ok := true; json := Fulfilled (JObject (Some r) None) |}.

(** ** One activation of the page

    The component together with what is still in flight: whether the history
    request is outstanding, how many chat requests are, and the effects
    performed so far. Events are what the browser can deliver: a promise
    settling, or a DOM event on a control that the last render mounted and
    did not disable. *)

Record Config : Type := {
  view : State;
  historyPending : bool;
  chatPending : nat;
  performed : list effect
}.

Inductive event : Type :=
| HistorySettles (settles : fetch_result)
| ChatSettles (settles : fetch_result)
| ClickSend
| KeyDown (key : jsstring) (shiftKey : bool)
| InputChange (value : jsstring)
| FileChange (files : list File) (objectURL : jsstring)
| ClickRemoveFile
| ClickMicrophone
| RecognitionResult (transcript : jsstring)
| RecognitionError (err : jsstring)
| RecognitionEnd.

(** The page right after the first render and its mount effect. *)
Definition activate (stored : option jsstring) (now rnd : jsstring) : Config :=
  match mount stored now rnd initial_state with
  | (_, st, eff) =>
      {| view := st; historyPending := true; chatPending := 0; performed := eff |}
  end.

Section Activation.

Variable recognition : option Recognition.

(** Lines 166-197: what is mounted and what is [disabled]. *)
Definition enabled (e : event) (c : Config) : bool :=
  let st := view c in
  match e with
  | HistorySettles _ => historyPending c
  | ChatSettles _ => (0 <? chatPending c)%nat
  | ClickSend => main_view st && negb (send_button_disabled st)
  | KeyDown _ _ => main_view st && negb (isLoading st)
  | InputChange _ => main_view st && negb (isLoading st)
  | FileChange _ _ => main_view st
  | ClickRemoveFile => main_view st && truthy (filePreview st)
  | ClickMicrophone => main_view st && present recognition && negb (isLoading st)
  | RecognitionResult _ => present recognition
  | RecognitionError _ => present recognition
  | RecognitionEnd => present recognition
  end.

(** Runs a handler on the configuration. *)
Definition run_handler {A} (m : M A) (c : Config) : completion A * Config :=
  match m (view c) with
  | (r, st, eff) =>
      (r, {| view := st; historyPending := historyPending c;
             chatPending := chatPending c;
             performed := performed c ++ eff |})
  end.

Definition note_request (issued : completion (option FormData)) (c : Config) : Config :=
  match issued with
  | Normal (Some _) =>
      {| view := view c; historyPending := historyPending c;
         chatPending := S (chatPending c); performed := performed c |}
  | _ => c
  end.

Definition step (e : event) (c : Config) : Config :=
  match e with
  | HistorySettles settles =>
      let c' := snd (run_handler (fetchHistory_resume settles) c) in
      {| view := view c'; historyPending := false;
         chatPending := chatPending c'; performed := performed c' |}
  | ChatSettles settles =>
      let c' := snd (run_handler (handleSend_resume settles) c) in
      {| view := view c'; historyPending := historyPending c';
         chatPending := pred (chatPending c'); performed := performed c' |}
  | ClickSend =>
      let (issued, c') := run_handler handleSend_begin c in
      note_request issued c'
  | KeyDown key shiftKey =>
      let (issued, c') := run_handler (handleKeyPress key shiftKey) c in
      note_request issued c'
  | InputChange value => snd (run_handler (setInput value) c)
  | FileChange files objectURL =>
      snd (run_handler (handleFileChange files objectURL) c)
  | ClickRemoveFile => snd (run_handler removeFile c)
  | ClickMicrophone => snd (run_handler (handleVoiceListen recognition) c)
  | RecognitionResult transcript => snd (run_handler (setInput transcript) c)
  | RecognitionError err =>
      snd (run_handler (emit (console_error (lit "Speech recognition error") err)) c)
  | RecognitionEnd => snd (run_handler (setIsListening false) c)
  end.

(** Runs a sequence of events, stopping with [None] at one that the page
    cannot receive. *)
Fixpoint run (es : list event) (c : Config) : option Config :=
  match es with
  | [] => Some c
  | e :: es' => if enabled e c then run es' (step e c) else None
  end.

(** The configurations an activation can be in. *)
Inductive reachable : Config -> Prop :=
| reach_activate stored now rnd : reachable (activate stored now rnd)
| reach_step e c : reachable c -> enabled e c = true -> reachable (step e c).

(** Does the event call [handleSend]? *)
Definition calls_handleSend (e : event) : bool :=
  match e with
  | ClickSend => true
  | KeyDown key shiftKey => str_eq key (lit "Enter") && negb shiftKey
  | _ => false
  end.

(** Is the event a chat request settling? *)
Definition is_chat_settle (e : event) : bool :=
  match e with
  | ChatSettles _ => true
  | _ => false
  end.

End Activation.

(** What holds of a configuration throughout an activation: the session
    id is set; the status is [Loading] exactly while the history request is
    outstanding; nothing was logged or sent before the status became
    [Ready]; and the busy flag is up exactly while one chat request is
    outstanding. *)
Definition activation_inv (c : Config) : Prop :=
  truthy (sessionId (view c)) = true
  /\ (historyPending c = true <-> appStatus (view c) = Loading)
  /\ (appStatus (view c) <> Ready -> messages (view c) = [] /\ isLoading (view c) = false)
  /\ chatPending c = (if isLoading (view c) then 1 else 0)%nat.

(** The state a handler leaves, and the effects it performed. *)
Definition state_after {A} (r : completion A * State * list effect) : State :=
  snd (fst r).

Definition effects_of {A} (r : completion A * State * list effect) : list effect :=
  snd r.

Definition completion_of {A} (r : completion A * State * list effect) : completion A :=
  fst (fst r).

(** ** Sample configurations

    An activation with nothing in local storage, an empty history, and
    [value] typed into the text area. *)
Definition sample_activation : Config :=
  activate None (lit "1700000000000") (lit "k3j9x2m1q").

Definition sample_ready (value : jsstring) : Config :=
  step None (InputChange value)
    (step None (HistorySettles (history_loaded [])) sample_activation).

Definition sample_png : File :=
  {| file_name := lit "cat.png"; file_type := lit "image/png" |}.

Definition network_error : fetch_result :=
  Rejected (new_Error (lit "Failed to fetch")).

Definition server_error (reason : jsstring) : fetch_result :=
  Fulfilled {| ok := false; json := Fulfilled (JObject None (Some reason)) |}.

(** ** Local storage

    [localStorage] as a finite map from keys to values; [write_back] replays
    the [setItem] calls of an effect log on it, in order. *)

Definition Storage : Type := gmap (list N) (list N).

Definition getItem (store : Storage) (key : jsstring) : option jsstring :=
  store !! key.

Definition setItem (store : Storage) (key value : jsstring) : Storage :=
  <[key := value]> store.

Fixpoint write_back (effs : list effect) (store : Storage) : Storage :=
  match effs with
  | [] => store
  | localStorage_setItem key value :: effs' =>
      write_back effs' (setItem store key value)
  | _ :: effs' => write_back effs' store
  end.

(** An activation of the page over a given [localStorage] (line 31). *)
Definition activate_over (store : Storage) (now rnd : jsstring) : Config :=
  activate (getItem store (lit "chatSessionId")) now rnd.

(** ** Requests in an effect log *)

Definition history_requests (effs : list effect) : list jsstring :=
  flat_map (fun e => match e with fetch_history id => [id] | _ => [] end) effs.

Definition chat_requests (effs : list effect) : list FormData :=
  flat_map (fun e => match e with fetch_chat body => [body] | _ => [] end) effs.

Definition storage_writes (effs : list effect) : list (jsstring * jsstring) :=
  flat_map (fun e => match e with
                     | localStorage_setItem k v => [(k, v)]
                     | _ => []
                     end) effs.

Definition alerts (effs : list effect) : list jsstring :=
  flat_map (fun e => match e with alert msg => [msg] | _ => [] end) effs.

(** The events of the voice capability. *)
Definition is_voice_event (e : event) : bool :=
  match e with
  | ClickMicrophone | RecognitionResult _ | RecognitionError _ | RecognitionEnd => true
  | _ => false
  end.

(** What [fetchHistory] throws into its own [catch], lines 40-51: the
    rejection of the fetch or of the body, or the [Error] built from a
    non-2xx body. *)
Definition history_failure_reason (settles : fetch_result) : jsstring :=
  match settles with
  | Rejected err => message err
  | Fulfilled r =>
      match json r with
      | Rejected err => message err
      | Fulfilled data => or_else (get_error data) (lit "Failed to fetch history")
      end
  end.

(** ** What [App] renders (lines 146-197)

    The element tree, with the attributes of the JSX as written. A child
    written [cond && <x/>] is present when [cond] is truthy. *)

Inductive handlerName : Type :=
| on_removeFile           (* onClick={removeFile} *)
| on_openFileDialog       (* onClick={() => fileInputRef.current.click()} *)
| on_handleFileChange     (* onChange={handleFileChange} *)
| on_handleVoiceListen    (* onClick={handleVoiceListen} *)
| on_setInput             (* onChange={(e) => setInput(e.target.value)} *)
| on_handleKeyPress       (* onKeyDown={handleKeyPress} *)
| on_handleSend.          (* onClick={handleSend} *)

Inductive refName : Type := messagesEndRef | fileInputRef.

Inductive attribute : Type :=
| className (v : jsstring)
| attr (name : string) (v : jsstring)
| disabled (v : bool)
| onClick (h : handlerName)
| onChange (h : handlerName)
| onKeyDown (h : handlerName)
| ref (r : refName)
| key_index (index : nat).

#[warnings="-register-all"] Inductive node : Type :=
| text_node (s : jsstring)
| element (tag : string) (attrs : list attribute) (children : list node).

(** [{cond && child}] *)
Definition when (cond : bool) (child : node) : list node :=
  if cond then [child] else [].

Definition sender_name (s : Sender) : jsstring :=
  match s with
  | user => lit "user"
  | bot => lit "bot"
  end.

Definition App_header : node :=
  element "header" [className (lit "App-header")]
    [element "h1" [] [text_node (lit "ThatBot")]].

(** The body of [messages.map((msg, index) => ...)], lines 172-175. *)
Definition render_message (index : nat) (msg : Message) : node :=
  element "div"
    [key_index index; className (lit "message " ++ sender_name (sender msg))]
    (when (truthy (image msg))
       (element "img"
          [attr "src" (or_else (image msg) []); attr "alt" (lit "User upload");
           className (lit "message-image")] [])
     ++ when (truthy (text msg))
          (element "p" [] [text_node (or_else (text msg) [])])).

Definition thinking : node :=
  element "div" [className (lit "message bot")]
    [element "p" [] [element "i" [] [text_node (lit "ThatBot is thinking...")]]].

Definition App (recognition : option Recognition) (st : State) : node :=
  match appStatus st with
  | Loading =>
      element "div" [className (lit "App")]
        [App_header;
         element "div" [className (lit "status-message")]
           [text_node (lit "Loading chat history...")]]
  | Error =>
      element "div" [className (lit "App")]
        [App_header;
         element "div" [className (lit "status-message error")]
           [text_node (lit "Failed to connect to the server. Please ensure the backend is running and refresh the page.")]]
  | Ready =>
      element "div" [className (lit "App")]
        [App_header;
         element "div" [className (lit "chat-window")]
           ([element "div" [className (lit "messages")]
               (imap render_message (messages st)
                ++ when (isLoading st) thinking
                ++ [element "div" [ref messagesEndRef] []])]
            ++ when (truthy (filePreview st))
                 (element "div" [className (lit "file-preview")]
                    [element "img"
                       [attr "src" (or_else (filePreview st) []);
                        attr "alt" (lit "Preview")] [];
                     element "button" [onClick on_removeFile]
                       [text_node [0xD7]]])
            ++ [element "div" [className (lit "input-area")]
                  ([element "input"
                      [attr "type" (lit "file"); ref fileInputRef;
                       onChange on_handleFileChange;
                       attr "style" (lit "display: none");
                       attr "accept" (lit "image/*")] [];
                    element "button"
                      [className (lit "icon-button");
                       onClick on_openFileDialog; disabled (isLoading st)]
                      [element "FaPaperclip" [] []]]
                   ++ when (present recognition)
                        (element "button"
                           [className (lit "icon-button "
                                       ++ (if isListening st
                                           then lit "listening" else []));
                            onClick on_handleVoiceListen;
                            disabled (isLoading st)]
                           [element "FaMicrophone" [] []])
                   ++ [element "textarea"
                         [attr "value" (input st); onChange on_setInput;
                          onKeyDown on_handleKeyPress;
                          attr "placeholder" (lit "Type or speak a message...");
                          disabled (isLoading st); attr "rows" (lit "1")] [];
                       element "button"
                         [className (lit "send-button");
                          onClick on_handleSend;
                          disabled (send_button_disabled st)]
                         [element "FaPaperPlane" [] []]])])]
  end.

(** The handlers an element offers: none when it is [disabled]. *)
Definition is_disabled (attrs : list attribute) : bool :=
  existsb (fun a => match a with disabled true => true | _ => false end) attrs.

Definition handlers_of (attrs : list attribute) : list handlerName :=
  flat_map (fun a => match a with
                     | onClick h | onChange h | onKeyDown h => [h]
                     | _ => []
                     end) attrs.

(** The handlers a user can reach in a rendered tree. *)
Fixpoint live_handlers (n : node) : list handlerName :=
  match n with
  | text_node _ => []
  | element _ attrs children =>
      (if is_disabled attrs then [] else handlers_of attrs)
      ++ flat_map live_handlers children
  end.

Definition handler_eqb (a b : handlerName) : bool :=
  match a, b with
  | on_removeFile, on_removeFile
  | on_openFileDialog, on_openFileDialog
  | on_handleFileChange, on_handleFileChange
  | on_handleVoiceListen, on_handleVoiceListen
  | on_setInput, on_setInput
  | on_handleKeyPress, on_handleKeyPress
  | on_handleSend, on_handleSend => true
  | _, _ => false
  end.

Definition wired (h : handlerName) (n : node) : bool :=
  existsb (handler_eqb h) (live_handlers n).


(** ** Facts about [trim] *)

Section TrimFacts.

Lemma trimStart_all_white (s : jsstring) : all_white s -> trimStart s = [].
Proof.
  induction 1 as [|c s Hc _ IH]; simpl; [reflexivity|].
  now rewrite Hc.
Qed.

Lemma trimStart_suffix (s : jsstring) :
  exists w, all_white w /\ s = w ++ trimStart s.
Proof.
  induction s as [|c s [w [Hw Hs]]]; simpl.
  - exists []. split; [constructor | reflexivity].
  - destruct (isStrWhiteSpaceChar c) eqn:Hc.
    + exists (c :: w). split; [constructor; assumption|].
      simpl. now rewrite <- Hs.
    + exists []. split; [constructor | reflexivity].
Qed.

Lemma trimStart_head (s : jsstring) (c : code_unit) (r : jsstring) :
  trimStart s = c :: r -> isStrWhiteSpaceChar c = false.
Proof.
  induction s as [|d s IH]; simpl; [discriminate|].
  destruct (isStrWhiteSpaceChar d) eqn:Hd; [exact IH|].
  intros [= -> _]. exact Hd.
Qed.

Lemma trimStart_fixed (s : jsstring) (c : code_unit) :
  isStrWhiteSpaceChar c = false -> trimStart (c :: s) = c :: s.
Proof. intros H. simpl. now rewrite H. Qed.

Lemma all_white_rev (s : jsstring) : all_white s -> all_white (rev s).
Proof. unfold all_white. intros H. now apply Forall_rev. Qed.

Lemma all_white_app (s t : jsstring) :
  all_white s -> all_white t -> all_white (s ++ t).
Proof. unfold all_white. intros. now apply Forall_app. Qed.

Lemma all_white_app_inv (s t : jsstring) :
  all_white (s ++ t) -> all_white s /\ all_white t.
Proof. unfold all_white. intros H. now apply Forall_app in H. Qed.

(** A string of white space trims to the empty string. *)
Lemma trim_all_white (s : jsstring) : all_white s -> trim s = [].
Proof.
  intros H. unfold trim, trimEnd.
  now rewrite (trimStart_all_white s H).
Qed.

(** [trim] only removes white space, at the two ends. *)
Lemma trim_decompose (s : jsstring) :
  exists w1 w2, all_white w1 /\ all_white w2 /\ s = w1 ++ trim s ++ w2.
Proof.
  destruct (trimStart_suffix s) as [w1 [Hw1 Hs]].
  destruct (trimStart_suffix (rev (trimStart s))) as [w2 [Hw2 Hr]].
  exists w1, (rev w2). repeat split; [assumption | now apply all_white_rev |].
  unfold trim, trimEnd.
  rewrite <- rev_app_distr, <- Hr, rev_involutive. exact Hs.
Qed.

(** Conversely, a string that trims to the empty string is white space. *)
Lemma trim_empty_all_white (s : jsstring) : trim s = [] -> all_white s.
Proof.
  intros H. destruct (trim_decompose s) as [w1 [w2 [H1 [H2 Hs]]]].
  rewrite H in Hs. simpl in Hs. rewrite Hs. now apply all_white_app.
Qed.

(** A string that neither starts nor ends with white space is its own
    trim. *)
Lemma trim_fixed (c d : code_unit) (s : jsstring) :
  isStrWhiteSpaceChar c = false -> isStrWhiteSpaceChar d = false ->
  trim (c :: s ++ [d]) = c :: s ++ [d].
Proof.
  intros Hc Hd. unfold trim, trimEnd.
  rewrite (trimStart_fixed _ _ Hc).
  change (c :: s ++ [d]) with ((c :: s) ++ [d]).
  rewrite rev_unit, (trimStart_fixed _ _ Hd).
  rewrite <- rev_unit. apply rev_involutive.
Qed.

Lemma trim_nil : trim [] = [].
Proof. reflexivity. Qed.

End TrimFacts.

Example trim_hello : trim (lit "  hello world ") = lit "hello world".
Proof. reflexivity. Qed.

Example trim_blank : trim [0x20; 0x9; 0xA0; 0x2028; 0xA] = [].
Proof. reflexivity. Qed.

Example startsWith_image : startsWith (lit "image/png") (lit "image/") = true.
Proof. reflexivity. Qed.

Example startsWith_text : startsWith (lit "text/plain") (lit "image/") = false.
Proof. reflexivity. Qed.

(** ** What each handler does to the state *)

Section Handlers.

Variable st : State.

Lemma handleSend_begin_rejects :
  send_guard st = true -> handleSend_begin st = (Normal None, st, []).
Proof.
  intros H. unfold handleSend_begin, bind, get. now rewrite H.
Qed.

Lemma handleSend_begin_accepts :
  send_guard st = false ->
  handleSend_begin st =
    (Normal (Some (formData st)),
     {| messages := messages st ++ [userMessage st]; input := [];
        isLoading := true; isListening := isListening st;
        selectedFile := None; filePreview := None;
        sessionId := sessionId st; appStatus := appStatus st |},
     (if main_view st then [file_input_reset] else [])
       ++ [fetch_chat (formData st)]).
Proof.
  intros H. unfold handleSend_begin, bind, get. rewrite H.
  unfold removeFile, bind, get, fileInputRef_current, main_view. simpl.
  destruct (appStatus st); reflexivity.
Qed.

(** The request settled as a failure: the [catch] block runs. *)
Lemma handleSend_resume_failure (settles : fetch_result) :
  request_failed settles = true ->
  handleSend_resume settles st =
    (Normal tt,
     {| messages := messages st
          ++ [errorMessage (new_Error (failure_reason settles))];
        input := input st;
        isLoading := false; isListening := isListening st;
        selectedFile := selectedFile st; filePreview := filePreview st;
        sessionId := sessionId st; appStatus := appStatus st |},
     [console_error (lit "Error fetching data:") (failure_reason settles)]).
Proof.
  destruct settles as [[o [data|[m]]]|[m]]; simpl; try reflexivity.
  destruct o; simpl; [discriminate|]. intros _. reflexivity.
Qed.

(** The request settled with a 2xx response and a readable body. *)
Lemma handleSend_resume_success (data : JsonBody) :
  handleSend_resume (Fulfilled {| ok := true; json := Fulfilled data |}) st =
    (Normal tt,
     {| messages := messages st ++ [botMessage data];
        input := input st;
        isLoading := false; isListening := isListening st;
        selectedFile := selectedFile st; filePreview := filePreview st;
        sessionId := sessionId st; appStatus := appStatus st |},
     []).
Proof. reflexivity. Qed.

(** Either way exactly one entry is appended, the busy flag is lowered,
    nothing else changes, and nothing is thrown. *)
Lemma handleSend_resume_total (settles : fetch_result) :
  exists entry eff,
    handleSend_resume settles st =
      (Normal tt,
       {| messages := messages st ++ [entry];
          input := input st;
          isLoading := false; isListening := isListening st;
          selectedFile := selectedFile st; filePreview := filePreview st;
          sessionId := sessionId st; appStatus := appStatus st |},
       eff)
    /\ sender entry = bot.
Proof.
  destruct (request_failed settles) eqn:Hf.
  - rewrite (handleSend_resume_failure settles Hf).
    eexists _, _. split; reflexivity.
  - destruct settles as [[o [data|e]]|e]; simpl in Hf; try discriminate.
    destruct o; simpl in Hf; [|discriminate].
    rewrite handleSend_resume_success. eexists _, _. split; reflexivity.
Qed.

Lemma fetchHistory_resume_success (body : JsonBody) :
  fetchHistory_resume (Fulfilled {| ok := true; json := Fulfilled body |}) st =
    (Normal tt,
     {| messages := if length_gt_0 body then items_of body else [greeting];
        input := input st;
        isLoading := isLoading st; isListening := isListening st;
        selectedFile := selectedFile st; filePreview := filePreview st;
        sessionId := sessionId st; appStatus := Ready |},
     []).
Proof.
  unfold fetchHistory_resume, try_catch, bind. simpl.
  destruct (length_gt_0 body); reflexivity.
Qed.

Lemma fetchHistory_resume_failure (settles : fetch_result) :
  history_failed settles = true ->
  exists reason,
    fetchHistory_resume settles st =
      (Normal tt,
       {| messages := messages st;
          input := input st;
          isLoading := isLoading st; isListening := isListening st;
          selectedFile := selectedFile st; filePreview := filePreview st;
          sessionId := sessionId st; appStatus := Error |},
       [console_error (lit "Failed to fetch history:") reason]).
Proof.
  destruct settles as [[o [data|[m]]]|[m]]; simpl.
  - destruct o; simpl; [discriminate|]. intros _. eexists. reflexivity.
  - intros _. exists m. destruct o; reflexivity.
  - intros _. exists m. reflexivity.
Qed.

End Handlers.

Lemma history_success_or_failure (settles : fetch_result) :
  history_failed settles = true
  \/ exists body, settles = Fulfilled {| ok := true; json := Fulfilled body |}.
Proof.
  destruct settles as [[o [data|e]]|e]; simpl; auto.
  destruct o; simpl; eauto.
Qed.

(** One whole send that is let through: the two halves in sequence. *)
Lemma handleSend_accepts (st : State) (settles : fetch_result) :
  send_guard st = false ->
  handleSend settles st =
    (completion_of (handleSend_resume settles (state_after (handleSend_begin st))),
     state_after (handleSend_resume settles (state_after (handleSend_begin st))),
     effects_of (handleSend_begin st)
       ++ effects_of (handleSend_resume settles (state_after (handleSend_begin st)))).
Proof.
  intros Hg. unfold handleSend, bind.
  rewrite (handleSend_begin_accepts st Hg).
  unfold state_after, effects_of, completion_of. simpl snd. simpl fst.
  match goal with |- context [handleSend_resume settles ?s] =>
    destruct (handleSend_resume settles s) as [[r st2] eff] end.
  reflexivity.
Qed.

Lemma handleSend_rejects (st : State) (settles : fetch_result) :
  send_guard st = true -> handleSend settles st = (Normal tt, st, []).
Proof.
  intros Hg. unfold handleSend, bind.
  now rewrite (handleSend_begin_rejects st Hg).
Qed.

(** ** The invariant of an activation *)

Section ActivationFacts.

Variable recognition : option Recognition.

Ltac inv_intro :=
  unfold activation_inv; simpl; intuition (try congruence; try discriminate).

Lemma activation_inv_activate stored now rnd :
  activation_inv (activate stored now rnd).
Proof.
  unfold activation_inv, activate, mount, bind.
  destruct (truthy stored) eqn:Ht; simpl.
  - destruct stored as [[|c s]|]; try discriminate.
    simpl. repeat split; try discriminate; auto.
  - repeat split; try discriminate; auto.
Qed.

Lemma activation_inv_step e c :
  activation_inv c -> enabled recognition e c = true ->
  activation_inv (step recognition e c).
Proof.
  intros (Hs & Hh & Hn & Hc) He.
  destruct c as [st hp cp pf]. simpl in *.
  destruct e; simpl in He;
    unfold step, run_handler, view, historyPending, chatPending.
  - subst hp. assert (HL : appStatus st = Loading) by now apply Hh.
    destruct Hn as [Hm Hb]; [congruence|].
    destruct (history_success_or_failure settles) as [Hf|[body ->]].
    + destruct (fetchHistory_resume_failure st settles Hf) as [reason ->].
      inv_intro.
    + rewrite fetchHistory_resume_success. inv_intro.
  - destruct (handleSend_resume_total st settles) as (entry & eff & -> & _).
    apply Nat.ltb_lt in He.
    destruct (isLoading st) eqn:Hl; [|lia].
    destruct (appStatus st) eqn:Ha;
      try (destruct Hn as [_ Hb]; [congruence|congruence]).
    inv_intro. subst cp. reflexivity.
  - apply andb_true_iff in He as [Hv Hd]. unfold send_button_disabled in Hd.
    apply negb_true_iff, orb_false_iff in Hd as [Hl Hd].
    unfold main_view in Hv. destruct (appStatus st) eqn:Ha; try discriminate.
    destruct (send_guard st) eqn:Hg.
    + rewrite (handleSend_begin_rejects st Hg). simpl. inv_intro.
    + rewrite (handleSend_begin_accepts st Hg). simpl.
      rewrite Hl in Hc. subst cp. inv_intro.
  - apply andb_true_iff in He as [Hv Hl]. apply negb_true_iff in Hl.
    unfold main_view in Hv. destruct (appStatus st) eqn:Ha; try discriminate.
    unfold handleKeyPress.
    destruct (str_eq key (lit "Enter") && negb shiftKey).
    + destruct (send_guard st) eqn:Hg.
      * rewrite (handleSend_begin_rejects st Hg). simpl. inv_intro.
      * rewrite (handleSend_begin_accepts st Hg). simpl.
        rewrite Hl in Hc. subst cp. inv_intro.
    + simpl. inv_intro.
  - simpl. inv_intro.
  - unfold handleFileChange.
    destruct (hd_error files) as [file|]; simpl; [|inv_intro].
    destruct (startsWith (file_type file) (lit "image/")); simpl; inv_intro.
  - unfold removeFile, bind, get, fileInputRef_current, main_view. simpl.
    destruct (appStatus st) eqn:Ha; simpl; inv_intro.
  - unfold handleVoiceListen, bind, get.
    destruct recognition; simpl; [|inv_intro].
    destruct (isListening st); simpl; inv_intro.
  - simpl. inv_intro.
  - simpl. inv_intro.
  - simpl. inv_intro.
Qed.

Lemma reachable_inv c : reachable recognition c -> activation_inv c.
Proof.
  induction 1 as [stored now rnd | e c _ IH He].
  - apply activation_inv_activate.
  - now apply activation_inv_step.
Qed.

Lemma run_inv es : forall c c',
  activation_inv c -> run recognition es c = Some c' -> activation_inv c'.
Proof.
  induction es as [|e es IH]; simpl; intros c c' Hi Hr.
  - now injection Hr as <-.
  - destruct (enabled recognition e c) eqn:He; [|discriminate].
    apply (IH (step recognition e c)); [|exact Hr].
    now apply activation_inv_step.
Qed.

Lemma run_reachable es : forall c c',
  reachable recognition c -> run recognition es c = Some c' ->
  reachable recognition c'.
Proof.
  induction es as [|e es IH]; simpl; intros c c' Hc Hr.
  - now injection Hr as <-.
  - destruct (enabled recognition e c) eqn:He; [|discriminate].
    apply (IH (step recognition e c)); [|exact Hr].
    now apply reach_step.
Qed.

End ActivationFacts.

(** ** Sanity checks on concrete runs *)

Example sample_ready_view :
  view (sample_ready (lit "hello")) =
    {| messages := [greeting]; input := lit "hello"; isLoading := false;
       isListening := false; selectedFile := None; filePreview := None;
       sessionId := Some (lit "session_1700000000000_k3j9x2m1q");
       appStatus := Ready |}.
Proof. reflexivity. Qed.

Example send_hello_log :
  messages (state_after (handleSend (replied (lit "hi")) (view (sample_ready (lit "hello")))))
  = [greeting;
     {| sender := user; text := Some (lit "hello"); image := None |};
     {| sender := bot; text := Some (lit "hi"); image := None |}].
Proof. reflexivity. Qed.

Example send_hello_effects :
  effects_of (handleSend (replied (lit "hi")) (view (sample_ready (lit "hello"))))
  = [file_input_reset;
     fetch_chat [(lit "sessionId", FormText (lit "session_1700000000000_k3j9x2m1q"));
                 (lit "message", FormText (lit "hello"))]].
Proof. reflexivity. Qed.

Example send_network_error_log :
  messages (state_after (handleSend network_error (view (sample_ready (lit "hello")))))
  = [greeting;
     {| sender := user; text := Some (lit "hello"); image := None |};
     {| sender := bot;
        text := Some (lit "Sorry, something went wrong: Failed to fetch");
        image := None |}].
Proof. reflexivity. Qed.

Lemma sample_activation_reachable (recognition : option Recognition) :
  reachable recognition sample_activation.
Proof. apply reach_activate. Qed.

Lemma sample_ready_reachable (recognition : option Recognition) (value : jsstring) :
  reachable recognition (sample_ready value).
Proof.
  change (sample_ready value) with
    (step recognition (InputChange value)
       (step recognition (HistorySettles (history_loaded [])) sample_activation)).
  apply reach_step; [apply reach_step; [apply reach_activate|]|]; reflexivity.
Defined.

(** ** The send pipeline *)

(** C6: a send with empty text and no pending attachment, or with no session
    id, does nothing at all: the state (log, busy flag and the rest) is the
    one it started from and no effect, hence no request, is performed. *)
Theorem send_without_content_or_session_is_noop
    (st : State) (settles : fetch_result) :
  (input st = [] /\ selectedFile st = None) \/ sessionId st = None ->
  handleSend_begin st = (Normal None, st, [])
  /\ handleSend settles st = (Normal tt, st, [])
  /\ messages (state_after (handleSend settles st)) = messages st
  /\ isLoading (state_after (handleSend settles st)) = isLoading st
  /\ effects_of (handleSend settles st) = [].
Proof.
  intros H.
  assert (Hg : send_guard st = true).
  { unfold send_guard. destruct H as [[Hi Hf] | Hs].
    - rewrite Hi, Hf. reflexivity.
    - rewrite Hs. apply orb_true_r. }
  rewrite (handleSend_rejects st settles Hg), (handleSend_begin_rejects st Hg).
  repeat split.
Qed.

Lemma send_without_content_or_session_is_noop_witness :
  handleSend (replied (lit "hi")) (view (sample_ready []))
  = (Normal tt, view (sample_ready []), []).
Proof.
  apply (send_without_content_or_session_is_noop
           (view (sample_ready [])) (replied (lit "hi"))).
  left. split; reflexivity.
Defined.

(** C10: [handleSend] trims the text first. A text of white space only, with
    no pending attachment, is a no-op like the empty text; and a send that is
    let through logs a user message and issues a request whose [message]
    field both carry the trimmed text. *)
Theorem send_uses_trimmed_text
    (blank st : State) (settles : fetch_result) :
  all_white (input blank) -> selectedFile blank = None ->
  send_guard st = false ->
  handleSend settles blank = (Normal tt, blank, [])
  /\ completion_of (handleSend_begin st) = Normal (Some (formData st))
  /\ messages (state_after (handleSend_begin st))
     = messages st
         ++ [{| sender := user; text := Some (trim (input st));
                image := filePreview st |}]
  /\ In (fetch_chat (formData st)) (effects_of (handleSend_begin st))
  /\ In (lit "message", FormText (trim (input st))) (formData st)
  /\ (forall v, In (lit "message", v) (formData st) ->
                v = FormText (trim (input st))).
Proof.
  intros Hw Hf Hg. split.
  - apply handleSend_rejects. unfold send_guard.
    now rewrite (trim_all_white _ Hw), Hf.
  - rewrite (handleSend_begin_accepts st Hg).
    unfold completion_of, state_after, effects_of. simpl fst. simpl snd.
    repeat split.
    + apply in_or_app. right. now left.
    + right. now left.
    + intros v Hv. unfold formData in Hv.
      apply in_app_or in Hv as [[Hv|[Hv|[]]]|Hv].
      * discriminate Hv.
      * now injection Hv as <-.
      * destruct (selectedFile st); simpl in Hv; [|contradiction].
        destruct Hv as [Hv|[]]. discriminate Hv.
Qed.

Lemma send_uses_trimmed_text_witness :
  handleSend network_error (view (sample_ready (lit "   ")))
    = (Normal tt, view (sample_ready (lit "   ")), [])
  /\ messages (state_after (handleSend_begin (view (sample_ready (lit "  hello ")))))
     = [greeting; {| sender := user; text := Some (lit "hello"); image := None |}].
Proof.
  pose proof (send_uses_trimmed_text
                (view (sample_ready (lit "   ")))
                (view (sample_ready (lit "  hello ")))
                network_error) as H.
  destruct H as (H1 & _ & H2 & _).
  - repeat constructor.
  - reflexivity.
  - reflexivity.
  - split; [exact H1 | exact H2].
Defined.

(** C2: when the request of a send fails (the fetch rejects, the body cannot
    be read, or the response is not 2xx), the log gains exactly the user
    entry and then one bot entry whose text contains the failure reason, and
    the call completes normally: nothing is thrown to the caller. *)
Theorem failed_send_appends_user_and_error_entry
    (st : State) (settles : fetch_result) :
  send_guard st = false -> request_failed settles = true ->
  exists t,
    completion_of (handleSend settles st) = Normal tt
    /\ messages (state_after (handleSend settles st))
       = messages st
           ++ [userMessage st; {| sender := bot; text := Some t; image := None |}]
    /\ sender (userMessage st) = user
    /\ includes t (failure_reason settles).
Proof.
  intros Hg Hf.
  exists (lit "Sorry, something went wrong: " ++ failure_reason settles).
  rewrite (handleSend_accepts st settles Hg).
  rewrite (handleSend_begin_accepts st Hg).
  unfold state_after at 2 4. simpl snd. simpl fst.
  rewrite (handleSend_resume_failure _ settles Hf).
  unfold completion_of, state_after. simpl.
  repeat split.
  - now rewrite <- app_assoc.
  - exists (lit "Sorry, something went wrong: "), []. now rewrite app_nil_r.
Qed.

Lemma failed_send_appends_user_and_error_entry_witness :
  exists t,
    completion_of (handleSend (server_error (lit "quota exceeded"))
                     (view (sample_ready (lit "hello")))) = Normal tt
    /\ messages (state_after (handleSend (server_error (lit "quota exceeded"))
                                (view (sample_ready (lit "hello")))))
       = [greeting;
          {| sender := user; text := Some (lit "hello"); image := None |};
          {| sender := bot; text := Some t; image := None |}]
    /\ includes t (lit "quota exceeded").
Proof.
  destruct (failed_send_appends_user_and_error_entry
              (view (sample_ready (lit "hello")))
              (server_error (lit "quota exceeded")))
    as (t & H1 & H2 & _ & H3).
  - reflexivity.
  - reflexivity.
  - exists t. split; [exact H1 | split; [exact H2 | exact H3]].
Defined.

Section ReadySend.

Variable recognition : option Recognition.

(** C1, as amended: in a ready page with nothing in flight and a text that
    is non-empty after trimming, a send that the backend answers with
    [{reply: r}] completes normally and the log gains exactly two entries, in
    order: the user message carrying the trimmed text (and the preview of the
    pending attachment, if any), then one bot message whose text is [r]. *)
Theorem answered_send_appends_user_then_bot (c : Config) (r : jsstring) :
  reachable recognition c ->
  appStatus (view c) = Ready ->
  isLoading (view c) = false ->
  trim (input (view c)) <> [] ->
  completion_of (handleSend (replied r) (view c)) = Normal tt
  /\ messages (state_after (handleSend (replied r) (view c)))
     = messages (view c)
         ++ [{| sender := user; text := Some (trim (input (view c)));
                image := filePreview (view c) |};
             {| sender := bot; text := Some r; image := None |}].
Proof.
  intros Hr _ _ Ht.
  destruct (reachable_inv recognition c Hr) as (Hs & _).
  assert (Hg : send_guard (view c) = false).
  { unfold send_guard. rewrite Hs.
    destruct (trim (input (view c))); [contradiction|reflexivity]. }
  rewrite (handleSend_accepts _ (replied r) Hg).
  rewrite (handleSend_begin_accepts _ Hg).
  unfold state_after at 2 4. simpl snd. simpl fst.
  unfold replied. rewrite handleSend_resume_success.
  unfold completion_of, state_after. simpl.
  split; [reflexivity|]. now rewrite <- app_assoc.
Qed.

End ReadySend.

Lemma answered_send_appends_user_then_bot_witness :
  messages (state_after (handleSend (replied (lit "hi"))
                           (view (sample_ready (lit " hello ")))))
  = [greeting;
     {| sender := user; text := Some (lit "hello"); image := None |};
     {| sender := bot; text := Some (lit "hi"); image := None |}].
Proof.
  apply (answered_send_appends_user_then_bot None
           (sample_ready (lit " hello ")) (lit "hi")).
  - apply sample_ready_reachable.
  - reflexivity.
  - reflexivity.
  - discriminate.
Defined.

(** C1, as stated, fails: the page is ready, nothing is in flight and the
    text is not empty, yet a text of one space is not sent (the log is
    unchanged), and a padded text is logged without its padding, not as
    given. *)
Lemma send_of_blank_or_padded_text :
  (appStatus (view (sample_ready (lit " "))) = Ready
   /\ isLoading (view (sample_ready (lit " "))) = false
   /\ chatPending (sample_ready (lit " ")) = 0%nat
   /\ input (view (sample_ready (lit " "))) <> []
   /\ messages (state_after (handleSend (replied (lit "hi"))
                                (view (sample_ready (lit " ")))))
      = messages (view (sample_ready (lit " ")))
   /\ messages (state_after (handleSend (replied (lit "hi"))
                                (view (sample_ready (lit " ")))))
      <> messages (view (sample_ready (lit " ")))
           ++ [{| sender := user; text := Some (lit " "); image := None |};
               {| sender := bot; text := Some (lit "hi"); image := None |}])
  /\ (appStatus (view (sample_ready (lit " hello "))) = Ready
      /\ isLoading (view (sample_ready (lit " hello "))) = false
      /\ messages (state_after (handleSend (replied (lit "hi"))
                                   (view (sample_ready (lit " hello ")))))
         <> messages (view (sample_ready (lit " hello ")))
              ++ [{| sender := user; text := Some (lit " hello "); image := None |};
                  {| sender := bot; text := Some (lit "hi"); image := None |}]).
Proof.
  repeat split; try reflexivity; vm_compute; discriminate.
Qed.

(** ** History synchronisation *)

(** C4: when the history request settles with a 2xx response carrying the
    sequence [items], the log becomes [items] if that is not empty and the
    single greeting otherwise, and the status becomes [Ready]. *)
Theorem history_success_initialises_log
    (recognition : option Recognition) (stored : option jsstring)
    (now rnd : jsstring) (items : list Message) :
  messages (view (step recognition (HistorySettles (history_loaded items))
                    (activate stored now rnd)))
  = match items with [] => [greeting] | _ :: _ => items end
  /\ length (messages (view (step recognition (HistorySettles (history_loaded items))
                               (activate stored now rnd))))
     = match items with [] => 1%nat | _ :: _ => length items end
  /\ appStatus (view (step recognition (HistorySettles (history_loaded items))
                        (activate stored now rnd)))
     = Ready
  /\ historyPending (step recognition (HistorySettles (history_loaded items))
                       (activate stored now rnd))
     = false.
Proof.
  unfold step, run_handler, history_loaded.
  rewrite fetchHistory_resume_success.
  destruct items; repeat split.
Qed.

Section ActivationClaims.

Variable recognition : option Recognition.

(** Once in [Error], no event the page can receive changes the status. *)
Lemma error_step e c :
  activation_inv c -> appStatus (view c) = Error ->
  enabled recognition e c = true ->
  appStatus (view (step recognition e c)) = Error.
Proof.
  intros (_ & Hh & Hn & Hc) Ha He.
  destruct Hn as [_ Hb]; [congruence|].
  destruct c as [st hp cp pf]. simpl in *.
  assert (Hv : main_view st = false) by (unfold main_view; now rewrite Ha).
  destruct e; simpl in He; rewrite ?Hv in He; try discriminate;
    unfold step, run_handler, view.
  - subst hp. destruct Hh as [Hh _]. rewrite Hh in Ha; [discriminate|reflexivity].
  - rewrite Hb in Hc. subst cp. discriminate.
  - exact Ha.
  - exact Ha.
  - exact Ha.
Qed.

Lemma error_run es : forall c c',
  activation_inv c -> appStatus (view c) = Error ->
  run recognition es c = Some c' ->
  appStatus (view c') = Error /\ activation_inv c'.
Proof.
  induction es as [|e es IH]; simpl; intros c c' Hi Ha Hr.
  - injection Hr as <-. now split.
  - destruct (enabled recognition e c) eqn:He; [|discriminate].
    apply (IH (step recognition e c)); [| |exact Hr].
    + now apply activation_inv_step.
    + now apply error_step.
Qed.

(** C5: when the history request fails (transport error, unreadable body or
    non-2xx response) the status becomes [Error] and the log stays empty, and
    whatever the page receives afterwards in this activation, the status is
    still [Error] and the log still empty. *)
Theorem history_failure_is_terminal
    (c c' : Config) (settles : fetch_result) (es : list event) :
  reachable recognition c ->
  historyPending c = true ->
  history_failed settles = true ->
  run recognition es (step recognition (HistorySettles settles) c) = Some c' ->
  appStatus (view (step recognition (HistorySettles settles) c)) = Error
  /\ messages (view (step recognition (HistorySettles settles) c)) = []
  /\ appStatus (view c') = Error
  /\ messages (view c') = [].
Proof.
  intros Hr Hp Hf Hrun.
  pose proof (reachable_inv recognition c Hr) as Hi.
  assert (Hi1 : activation_inv (step recognition (HistorySettles settles) c))
    by (apply activation_inv_step; [exact Hi | exact Hp]).
  assert (Ha1 : appStatus (view (step recognition (HistorySettles settles) c)) = Error).
  { unfold step, run_handler.
    destruct (fetchHistory_resume_failure (view c) settles Hf) as [reason ->].
    reflexivity. }
  destruct (error_run es _ c' Hi1 Ha1 Hrun) as [Ha' Hi'].
  destruct Hi1 as (_ & _ & Hn1 & _). destruct Hi' as (_ & _ & Hn' & _).
  repeat split; try assumption.
  - apply Hn1. congruence.
  - apply Hn'. congruence.
Qed.

(** Every event the page can receive only appends to the log. *)
Lemma step_appends e c :
  activation_inv c -> enabled recognition e c = true ->
  messages (view c) `prefix_of` messages (view (step recognition e c)).
Proof.
  intros (_ & Hh & Hn & _) He.
  destruct c as [st hp cp pf]. simpl in *.
  destruct e; simpl in He; unfold step, run_handler, view.
  - subst hp. destruct Hn as [-> _]; [|apply prefix_nil].
    destruct Hh as [-> _]; [discriminate|reflexivity].
  - destruct (handleSend_resume_total st settles) as (entry & eff & -> & _).
    simpl. now apply prefix_app_r.
  - destruct (send_guard st) eqn:Hg.
    + now rewrite (handleSend_begin_rejects st Hg).
    + rewrite (handleSend_begin_accepts st Hg). simpl. now apply prefix_app_r.
  - unfold handleKeyPress.
    destruct (str_eq key (lit "Enter") && negb shiftKey); [|reflexivity].
    destruct (send_guard st) eqn:Hg.
    + now rewrite (handleSend_begin_rejects st Hg).
    + rewrite (handleSend_begin_accepts st Hg). simpl. now apply prefix_app_r.
  - reflexivity.
  - unfold handleFileChange.
    destruct (hd_error files) as [file|]; [|reflexivity].
    destruct (startsWith (file_type file) (lit "image/")); reflexivity.
  - unfold removeFile, bind, get, fileInputRef_current. simpl.
    destruct (main_view _); reflexivity.
  - unfold handleVoiceListen, bind, get.
    destruct recognition; [|reflexivity].
    destruct (isListening st); reflexivity.
  - reflexivity.
  - reflexivity.
  - reflexivity.
Qed.

Lemma run_appends es : forall c c',
  activation_inv c -> run recognition es c = Some c' ->
  messages (view c) `prefix_of` messages (view c').
Proof.
  induction es as [|e es IH]; simpl; intros c c' Hi Hr.
  - now injection Hr as <-.
  - destruct (enabled recognition e c) eqn:He; [|discriminate].
    transitivity (messages (view (step recognition e c))).
    + now apply step_appends.
    + apply IH; [now apply activation_inv_step | exact Hr].
Qed.

(** C7: the log is append-only. Whatever sequence of events an activation
    goes through, the log before is a prefix of the log after; and each
    update a send makes (the user entry, then the bot reply or the error
    entry) extends the log it finds by exactly one entry at the end. *)
Theorem conversation_log_append_only
    (c c' : Config) (es : list event) (st : State) (settles : fetch_result) :
  reachable recognition c ->
  run recognition es c = Some c' ->
  messages (view c) `prefix_of` messages (view c')
  /\ (messages (state_after (handleSend_begin st)) = messages st
      \/ messages (state_after (handleSend_begin st))
         = messages st ++ [userMessage st])
  /\ (exists entry,
        messages (state_after (handleSend_resume settles st))
        = messages st ++ [entry])
  /\ messages st `prefix_of` messages (state_after (handleSend settles st)).
Proof.
  intros Hr Hrun. split; [|split; [|split]].
  - apply (run_appends es);
      [exact (reachable_inv recognition c Hr) | exact Hrun].
  - destruct (send_guard st) eqn:Hg.
    + left. now rewrite (handleSend_begin_rejects st Hg).
    + right. now rewrite (handleSend_begin_accepts st Hg).
  - destruct (handleSend_resume_total st settles) as (entry & eff & -> & _).
    now exists entry.
  - destruct (send_guard st) eqn:Hg.
    + now rewrite (handleSend_rejects st settles Hg).
    + rewrite (handleSend_accepts st settles Hg).
      destruct (handleSend_resume_total (state_after (handleSend_begin st)) settles)
        as (entry & eff & -> & _).
      rewrite (handleSend_begin_accepts st Hg).
      unfold state_after. simpl. now apply prefix_app_r, prefix_app_r.
Qed.

(** C3: a send that passes its guard finds the busy flag down and no request
    in flight, raises the flag before it waits for the backend (one request
    is then in flight), and however the request settles, from whatever state
    the page is in by then, the rest of the handler completes normally with
    the flag down. *)
Theorem busy_flag_brackets_send
    (c : Config) (e : event) (settles : fetch_result) (later : State) :
  reachable recognition c ->
  enabled recognition e c = true ->
  calls_handleSend e = true ->
  send_guard (view c) = false ->
  (isLoading (view c) = false /\ chatPending c = 0%nat)
  /\ (isLoading (view (step recognition e c)) = true
      /\ chatPending (step recognition e c) = 1%nat)
  /\ (completion_of (handleSend_resume settles later) = Normal tt
      /\ isLoading (state_after (handleSend_resume settles later)) = false)
  /\ (completion_of (handleSend settles (view c)) = Normal tt
      /\ isLoading (state_after (handleSend settles (view c))) = false).
Proof.
  intros Hr He Hc Hg.
  destruct (reachable_inv recognition c Hr) as (_ & _ & _ & Hp).
  assert (Hl : isLoading (view c) = false).
  { destruct e; try discriminate; simpl in He.
    - apply andb_true_iff in He as [_ Hd]. unfold send_button_disabled in Hd.
      now apply negb_true_iff, orb_false_iff in Hd as [Hl _].
    - apply andb_true_iff in He as [_ Hl]. now apply negb_true_iff in Hl. }
  rewrite Hl in Hp.
  assert (Hs : step recognition e c
               = note_request (Normal (Some (formData (view c))))
                   (snd (run_handler handleSend_begin c))).
  { destruct e; try discriminate; simpl in Hc |- *.
    - unfold run_handler. now rewrite (handleSend_begin_accepts _ Hg).
    - unfold handleKeyPress. rewrite Hc. unfold run_handler.
      now rewrite (handleSend_begin_accepts _ Hg). }
  split; [now split|]. split; [|split].
  - rewrite Hs. unfold run_handler.
    rewrite (handleSend_begin_accepts _ Hg). simpl. now rewrite Hp.
  - destruct (handleSend_resume_total later settles) as (entry & eff & -> & _).
    now split.
  - rewrite (handleSend_accepts _ settles Hg).
    match goal with |- context [handleSend_resume settles ?s] =>
      destruct (handleSend_resume_total s settles) as (entry & eff & -> & _) end.
    now split.
Qed.

(** While a send waits for the backend, nothing the page can receive other
    than the answer touches the log or the busy flag. *)
Lemma waiting_step e c :
  activation_inv c -> isLoading (view c) = true ->
  enabled recognition e c = true -> is_chat_settle e = false ->
  messages (view (step recognition e c)) = messages (view c)
  /\ isLoading (view (step recognition e c)) = true.
Proof.
  intros (_ & Hh & Hn & _) Hl He Hs.
  destruct c as [st hp cp pf]. simpl in *.
  assert (Ha : appStatus st = Ready).
  { destruct (appStatus st) eqn:Ha; [|reflexivity|];
      (destruct Hn as [_ Hb]; [discriminate|congruence]). }
  destruct e; try discriminate; simpl in He;
    unfold send_button_disabled in He; rewrite ?Hl, ?andb_false_r in He;
    try discriminate; unfold step, run_handler, view.
  - subst hp. destruct Hh as [Hh _]. rewrite Hh in Ha; [discriminate|reflexivity].
  - unfold handleFileChange.
    destruct (hd_error files) as [file|]; [|now split].
    destruct (startsWith (file_type file) (lit "image/")); now split.
  - unfold removeFile, bind, get, fileInputRef_current. simpl.
    destruct (main_view _); now split.
  - now split.
  - now split.
  - now split.
Qed.

Lemma waiting_run es : forall c c',
  activation_inv c -> isLoading (view c) = true ->
  forallb (fun e => negb (is_chat_settle e)) es = true ->
  run recognition es c = Some c' ->
  messages (view c') = messages (view c) /\ isLoading (view c') = true
  /\ activation_inv c'.
Proof.
  induction es as [|e es IH]; simpl; intros c c' Hi Hl Hs Hr.
  - injection Hr as <-. split; [reflexivity | split; assumption].
  - destruct (enabled recognition e c) eqn:He; [|discriminate].
    apply andb_true_iff in Hs as [Hs1 Hs2]. apply negb_true_iff in Hs1.
    destruct (waiting_step e c Hi Hl He Hs1) as [Hm Hl1].
    destruct (IH (step recognition e c) c') as (Hm' & Hl' & Hi'); try assumption.
    + now apply activation_inv_step.
    + split; [congruence | split; assumption].
Qed.

(** X23: a whole exchange as the page lives it: the click, any events while
    the request is in flight, then the answer. The log gains the user entry and
    the bot entry and nothing else, and the busy flag is down again. *)
Lemma send_exchange_interleaved (c c1 : Config) (es : list event) (r : jsstring) :
  reachable recognition c ->
  enabled recognition ClickSend c = true ->
  send_guard (view c) = false ->
  forallb (fun e => negb (is_chat_settle e)) es = true ->
  run recognition es (step recognition ClickSend c) = Some c1 ->
  enabled recognition (ChatSettles (replied r)) c1 = true
  /\ messages (view (step recognition (ChatSettles (replied r)) c1))
     = messages (view c)
         ++ [userMessage (view c);
             {| sender := bot; text := Some r; image := None |}]
  /\ isLoading (view (step recognition (ChatSettles (replied r)) c1)) = false.
Proof.
  intros Hr He Hg Hs Hrun.
  pose proof (reachable_inv recognition c Hr) as Hi.
  pose proof (activation_inv_step recognition ClickSend c Hi He) as Hi0.
  assert (Hb : messages (view (step recognition ClickSend c))
               = messages (view c) ++ [userMessage (view c)]
               /\ isLoading (view (step recognition ClickSend c)) = true).
  { unfold step, run_handler. rewrite (handleSend_begin_accepts _ Hg).
    simpl. now split. }
  destruct Hb as [Hm0 Hl0].
  destruct (waiting_run es _ c1 Hi0 Hl0 Hs Hrun) as (Hm1 & Hl1 & Hi1).
  split; [|split].
  - destruct Hi1 as (_ & _ & _ & Hp). simpl. rewrite Hp, Hl1. reflexivity.
  - unfold step at 1, run_handler, replied.
    rewrite handleSend_resume_success. simpl.
    rewrite Hm1, Hm0, <- app_assoc. reflexivity.
  - unfold step at 1, run_handler, replied.
    rewrite handleSend_resume_success. reflexivity.
Qed.

End ActivationClaims.

Lemma history_failure_is_terminal_witness :
  exists c',
    run (Some new_SpeechRecognition)
      [RecognitionEnd; RecognitionResult (lit "hi")]
      (step (Some new_SpeechRecognition) (HistorySettles network_error)
         sample_activation)
    = Some c'
    /\ appStatus (view c') = Error
    /\ messages (view c') = [].
Proof.
  eexists. split; [reflexivity|].
  destruct (history_failure_is_terminal (Some new_SpeechRecognition)
              sample_activation
              (step (Some new_SpeechRecognition) (RecognitionResult (lit "hi"))
                 (step (Some new_SpeechRecognition) RecognitionEnd
                    (step (Some new_SpeechRecognition)
                       (HistorySettles network_error) sample_activation)))
              network_error
              [RecognitionEnd; RecognitionResult (lit "hi")])
    as (_ & _ & H3 & H4).
  - apply sample_activation_reachable.
  - reflexivity.
  - reflexivity.
  - reflexivity.
  - split; [exact H3 | exact H4].
Defined.

Lemma conversation_log_append_only_witness :
  exists c',
    run None [ClickSend; ChatSettles (replied (lit "hi"))]
      (sample_ready (lit "hello"))
    = Some c'
    /\ messages (view (sample_ready (lit "hello")))
         `prefix_of` messages (view c').
Proof.
  eexists. split; [reflexivity|].
  destruct (conversation_log_append_only None
              (sample_ready (lit "hello"))
              (step None (ChatSettles (replied (lit "hi")))
                 (step None ClickSend (sample_ready (lit "hello"))))
              [ClickSend; ChatSettles (replied (lit "hi"))]
              (view (sample_ready (lit "hello"))) network_error)
    as (H & _).
  - apply sample_ready_reachable.
  - reflexivity.
  - exact H.
Defined.

Lemma busy_flag_brackets_send_witness :
  isLoading (view (sample_ready (lit "hello"))) = false
  /\ isLoading (view (step None ClickSend (sample_ready (lit "hello")))) = true
  /\ isLoading (state_after
       (handleSend_resume network_error
          (view (step None ClickSend (sample_ready (lit "hello")))))) = false.
Proof.
  destruct (busy_flag_brackets_send None
              (sample_ready (lit "hello")) ClickSend network_error
              (view (step None ClickSend (sample_ready (lit "hello")))))
    as ((H1 & _) & (H2 & _) & (_ & H3) & _).
  - apply sample_ready_reachable.
  - reflexivity.
  - reflexivity.
  - reflexivity.
  - split; [exact H1 | split; [exact H2 | exact H3]].
Defined.

(** ** Attachments and voice *)

(** C8: for a chosen file whose type starts with [image/], the pending
    attachment becomes that file and its preview, whatever was pending
    before, and nothing else changes; for any other file the user is alerted
    and the state, pending attachment included, is left as it was. *)
Theorem attachment_accepts_images_only
    (st : State) (file : File) (others : list File) (objectURL : jsstring) :
  handleFileChange (file :: others) objectURL st
  = if startsWith (file_type file) (lit "image/")
    then (Normal tt,
          {| messages := messages st; input := input st;
             isLoading := isLoading st; isListening := isListening st;
             selectedFile := Some file; filePreview := Some objectURL;
             sessionId := sessionId st; appStatus := appStatus st |},
          [])
    else (Normal tt, st, [alert (lit "Please select an image file.")]).
Proof.
  unfold handleFileChange, hd_error.
  destruct (startsWith (file_type file) (lit "image/")); reflexivity.
Qed.

(** C9: without a speech recogniser, [handleVoiceListen] alerts that voice
    recognition is not supported and leaves the whole state (input text,
    listening flag, log, pending attachment, busy flag, status) as it was. *)
Theorem voice_unsupported_changes_nothing (st : State) :
  handleVoiceListen None st
  = (Normal tt, st,
     [alert (lit "Voice recognition is not supported in this browser.")]).
Proof. reflexivity. Qed.

Example attachment_png_replaces :
  selectedFile (state_after (handleFileChange [sample_png] (lit "blob:1")
                               (view (sample_ready []))))
  = Some sample_png.
Proof. reflexivity. Qed.

Example attachment_text_rejected :
  handleFileChange
    [{| file_name := lit "notes.txt"; file_type := lit "text/plain" |}]
    (lit "blob:2") (view (sample_ready []))
  = (Normal tt, view (sample_ready []),
     [alert (lit "Please select an image file.")]).
Proof. reflexivity. Qed.

(** A change event without a file (the chooser was dismissed) does nothing. *)
Example attachment_none_chosen (st : State) :
  handleFileChange [] (lit "blob:3") st = (Normal tt, st, []).
Proof. reflexivity. Qed.


(** ** Further facts about strings *)

Lemma str_eq_spec (s : jsstring) : forall t, str_eq s t = true <-> s = t.
Proof.
  induction s as [|c s IH]; intros [|d t]; simpl; split;
    try discriminate; try reflexivity.
  - intros H. apply andb_true_iff in H as [Hc Hs].
    apply N.eqb_eq in Hc. apply IH in Hs. now subst.
  - intros [= -> ->]. rewrite N.eqb_refl. simpl. now apply IH.
Qed.

Lemma trimStart_idempotent (s : jsstring) : trimStart (trimStart s) = trimStart s.
Proof.
  destruct (trimStart s) as [|c r] eqn:H; [reflexivity|].
  apply trimStart_fixed. exact (trimStart_head s c r H).
Qed.

(** [trimEnd] keeps a prefix. *)
Lemma trimEnd_prefix (s : jsstring) :
  exists w, all_white w /\ s = trimEnd s ++ w.
Proof.
  destruct (trimStart_suffix (rev s)) as [w [Hw Hs]].
  exists (rev w). split; [now apply all_white_rev|].
  unfold trimEnd. rewrite <- rev_app_distr, <- Hs. now rewrite rev_involutive.
Qed.

Lemma trim_head (s : jsstring) (c : code_unit) (r : jsstring) :
  trim s = c :: r -> isStrWhiteSpaceChar c = false.
Proof.
  unfold trim. intros H.
  destruct (trimEnd_prefix (trimStart s)) as [w [_ Hs]].
  rewrite H in Hs. simpl in Hs.
  exact (trimStart_head s c _ Hs).
Qed.

Lemma trim_last (s : jsstring) (c : code_unit) (r : jsstring) :
  trim s = r ++ [c] -> isStrWhiteSpaceChar c = false.
Proof.
  unfold trim, trimEnd. intros H.
  apply (f_equal (@rev code_unit)) in H.
  rewrite rev_involutive, rev_unit in H.
  exact (trimStart_head _ c _ H).
Qed.

Lemma trim_idempotent (s : jsstring) : trim (trim s) = trim s.
Proof.
  assert (H1 : trimStart (trim s) = trim s).
  { destruct (trim s) as [|c r] eqn:H; [reflexivity|].
    apply trimStart_fixed. exact (trim_head s c r H). }
  unfold trim at 1. rewrite H1. unfold trim, trimEnd.
  now rewrite rev_involutive, trimStart_idempotent.
Qed.

(** ** Session bootstrap *)

Lemma activate_result (stored : option jsstring) (now rnd : jsstring) :
  exists id,
    id = (if truthy stored then or_else stored []
          else lit "session_" ++ now ++ lit "_" ++ rnd)
    /\ (truthy stored = true <-> stored = Some id)
    /\ truthy (Some id) = true
    /\ sessionId (view (activate stored now rnd)) = Some id
    /\ performed (activate stored now rnd)
       = (if truthy stored then []
          else [localStorage_setItem (lit "chatSessionId") id])
         ++ [fetch_history id]
    /\ appStatus (view (activate stored now rnd)) = Loading
    /\ messages (view (activate stored now rnd)) = []
    /\ historyPending (activate stored now rnd) = true.
Proof.
  eexists. split; [reflexivity|].
  unfold activate, mount, bind.
  destruct stored as [[|c s]|]; simpl; repeat split; try discriminate; auto.
Qed.

(** X1: what the mount effect does. A non-empty stored id is taken as it is
    and nothing is written; otherwise (nothing stored, or the empty string)
    the id [session_<now>_<rnd>] is made and written under [chatSessionId].
    Either way the id put in the state is non-empty and is the one the
    history is requested for, the page is loading, and the log is empty. *)
Theorem session_bootstrap (stored : option jsstring) (now rnd : jsstring) :
  exists id,
    id = (if truthy stored then or_else stored []
          else lit "session_" ++ now ++ lit "_" ++ rnd)
    /\ (truthy stored = true <-> stored = Some id)
    /\ truthy (Some id) = true
    /\ sessionId (view (activate stored now rnd)) = Some id
    /\ performed (activate stored now rnd)
       = (if truthy stored then []
          else [localStorage_setItem (lit "chatSessionId") id])
         ++ [fetch_history id]
    /\ appStatus (view (activate stored now rnd)) = Loading
    /\ messages (view (activate stored now rnd)) = []
    /\ historyPending (activate stored now rnd) = true.
Proof. exact (activate_result stored now rnd). Qed.

(** X2: the session id survives a reload. Whatever local storage holds
    before a first activation, an activation over the storage that the first
    one leaves takes the same session id, writes nothing, and requests the
    history of that same id, whatever the clock and the random source say. *)
Theorem session_id_survives_reactivation
    (store : Storage) (now rnd now' rnd' : jsstring) :
  sessionId (view (activate_over
                     (write_back (performed (activate_over store now rnd)) store)
                     now' rnd'))
  = sessionId (view (activate_over store now rnd))
  /\ storage_writes (performed (activate_over
                       (write_back (performed (activate_over store now rnd)) store)
                       now' rnd')) = []
  /\ history_requests (performed (activate_over
                         (write_back (performed (activate_over store now rnd)) store)
                         now' rnd'))
     = history_requests (performed (activate_over store now rnd)).
Proof.
  unfold activate_over.
  set (stored := getItem store (lit "chatSessionId")).
  destruct (activate_result stored now rnd)
    as (id & Hid & Hst & Ht & Hsid & Hperf & _).
  assert (Hback : getItem (write_back (performed (activate stored now rnd)) store)
                    (lit "chatSessionId") = Some id).
  { rewrite Hperf. destruct (truthy stored) eqn:Hs.
    - cbn [app write_back]. apply Hst. reflexivity.
    - cbn [app write_back]. unfold getItem, setItem. apply lookup_insert_eq. }
  rewrite Hback.
  destruct (activate_result (Some id) now' rnd')
    as (id' & Hid' & _ & _ & Hsid' & Hperf' & _).
  rewrite Ht in Hid', Hperf'.
  assert (id' = id) as ->.
  { rewrite Hid'. destruct id; [discriminate Ht | reflexivity]. }
  rewrite Hsid', Hsid, Hperf', Hperf. split; [reflexivity|]. split; [reflexivity|].
  unfold history_requests. rewrite flat_map_app.
  destruct (truthy stored); reflexivity.
Qed.

(** ** How each event changes the page *)

Section StepFacts.

Variable recognition : option Recognition.

Lemma history_requests_app (a b : list effect) :
  history_requests (a ++ b) = history_requests a ++ history_requests b.
Proof. apply flat_map_app. Qed.

Lemma chat_requests_app (a b : list effect) :
  chat_requests (a ++ b) = chat_requests a ++ chat_requests b.
Proof. apply flat_map_app. Qed.

Lemma storage_writes_app (a b : list effect) :
  storage_writes (a ++ b) = storage_writes a ++ storage_writes b.
Proof. apply flat_map_app. Qed.

Lemma handleSend_resume_effects (st : State) (settles : fetch_result) :
  effects_of (handleSend_resume settles st)
  = if request_failed settles
    then [console_error (lit "Error fetching data:") (failure_reason settles)]
    else [].
Proof.
  destruct (request_failed settles) eqn:Hf.
  - now rewrite (handleSend_resume_failure st settles Hf).
  - destruct settles as [[o [data|e]]|e]; simpl in Hf; try discriminate.
    destruct o; simpl in Hf; [|discriminate].
    now rewrite handleSend_resume_success.
Qed.

(** No event changes the session id. *)
Lemma step_sessionId e c :
  sessionId (view (step recognition e c)) = sessionId (view c).
Proof.
  destruct c as [st hp cp pf].
  destruct e; unfold step, run_handler, view.
  - destruct (history_success_or_failure settles) as [Hf|[body ->]].
    + now destruct (fetchHistory_resume_failure st settles Hf) as [reason ->].
    + now rewrite fetchHistory_resume_success.
  - now destruct (handleSend_resume_total st settles) as (entry & eff & -> & _).
  - destruct (send_guard st) eqn:Hg.
    + now rewrite (handleSend_begin_rejects st Hg).
    + now rewrite (handleSend_begin_accepts st Hg).
  - unfold handleKeyPress.
    destruct (str_eq key (lit "Enter") && negb shiftKey); [|reflexivity].
    destruct (send_guard st) eqn:Hg.
    + now rewrite (handleSend_begin_rejects st Hg).
    + now rewrite (handleSend_begin_accepts st Hg).
  - reflexivity.
  - unfold handleFileChange.
    destruct (hd_error files) as [file|]; [|reflexivity].
    destruct (startsWith (file_type file) (lit "image/")); reflexivity.
  - unfold removeFile, bind, get, fileInputRef_current. simpl.
    destruct (main_view _); reflexivity.
  - unfold handleVoiceListen, bind, get.
    destruct recognition; [|reflexivity].
    destruct (isListening st); reflexivity.
  - reflexivity.
  - reflexivity.
  - reflexivity.
Qed.

(** What an event adds to the effect log: never a history request or a
    storage write, and at most one chat request, built from the state the
    event found. *)
Lemma step_effects e c :
  exists effs,
    performed (step recognition e c) = performed c ++ effs
    /\ history_requests effs = []
    /\ storage_writes effs = []
    /\ (chat_requests effs = []
        \/ (chat_requests effs = [formData (view c)]
            /\ send_guard (view c) = false)).
Proof.
  destruct c as [st hp cp pf].
  destruct e; unfold step, run_handler, view.
  - destruct (history_success_or_failure settles) as [Hf|[body ->]].
    + destruct (fetchHistory_resume_failure st settles Hf) as [reason ->].
      eexists. simpl. split; [reflexivity|]. repeat split. now left.
    + rewrite fetchHistory_resume_success.
      eexists. simpl. split; [reflexivity|]. repeat split. now left.
  - pose proof (handleSend_resume_effects st settles) as He.
    destruct (handleSend_resume settles st) as [[r st'] eff].
    unfold effects_of in He. simpl in He. subst eff.
    eexists. simpl. split; [reflexivity|].
    destruct (request_failed settles); repeat split; now left.
  - destruct (send_guard st) eqn:Hg.
    + rewrite (handleSend_begin_rejects st Hg).
      eexists. simpl. split; [reflexivity|]. repeat split. now left.
    + rewrite (handleSend_begin_accepts st Hg).
      eexists. simpl. split; [reflexivity|].
      rewrite history_requests_app, storage_writes_app, chat_requests_app.
      destruct (main_view st); repeat split; right; now split.
  - unfold handleKeyPress.
    destruct (str_eq key (lit "Enter") && negb shiftKey).
    + destruct (send_guard st) eqn:Hg.
      * rewrite (handleSend_begin_rejects st Hg).
        eexists. simpl. split; [reflexivity|]. repeat split. now left.
      * rewrite (handleSend_begin_accepts st Hg).
        eexists. simpl. split; [reflexivity|].
        rewrite history_requests_app, storage_writes_app, chat_requests_app.
        destruct (main_view st); repeat split; right; now split.
    + eexists. simpl. split; [reflexivity|]. repeat split. now left.
  - eexists. simpl. split; [reflexivity|]. repeat split. now left.
  - unfold handleFileChange.
    destruct (hd_error files) as [file|];
      [destruct (startsWith (file_type file) (lit "image/"))|];
      eexists; simpl; (split; [reflexivity|]); repeat split; now left.
  - unfold removeFile, bind, get, fileInputRef_current. simpl.
    destruct (main_view _);
      eexists; simpl; (split; [reflexivity|]); repeat split; now left.
  - unfold handleVoiceListen, bind, get.
    destruct recognition; [destruct (isListening st)|];
      eexists; simpl; (split; [reflexivity|]); repeat split; now left.
  - eexists. simpl. split; [reflexivity|]. repeat split. now left.
  - eexists. simpl. split; [reflexivity|]. repeat split. now left.
  - eexists. simpl. split; [reflexivity|]. repeat split. now left.
Qed.

(** The requests an activation has made so far: one history request, for
    its session id; at most one storage write; and chat requests that all
    carry that session id. *)
Lemma requests_inv c :
  reachable recognition c ->
  exists sid,
    sessionId (view c) = Some sid
    /\ history_requests (performed c) = [sid]
    /\ (length (storage_writes (performed c)) <= 1)%nat
    /\ Forall (fun body => In (lit "sessionId", FormText sid) body)
         (chat_requests (performed c)).
Proof.
  induction 1 as [stored now rnd | e c Hr (sid & Hs & Hh & Hw & Hc) He].
  - destruct (activate_result stored now rnd)
      as (id & _ & _ & _ & Hsid & Hperf & _).
    exists id. rewrite Hsid, Hperf.
    destruct (truthy stored); simpl; repeat split; auto; constructor.
  - exists sid. rewrite step_sessionId.
    destruct (step_effects e c) as (effs & -> & Hh' & Hw' & Hc').
    rewrite history_requests_app, storage_writes_app, chat_requests_app.
    rewrite Hh', Hw', !app_nil_r. repeat split; try assumption.
    apply Forall_app. split; [exact Hc|].
    destruct Hc' as [-> | [-> Hg]]; constructor; [|constructor].
    unfold formData. left. rewrite Hs.
    pose proof (reachable_inv recognition c Hr) as (Ht & _).
    rewrite Hs in Ht. destruct sid; [discriminate Ht | reflexivity].
Qed.

End StepFacts.

Section ActivationExtras.

Variable recognition : option Recognition.

(** X3: the session id is fixed for the whole activation. After any
    sequence of events the page can receive, the id in the state is still the
    one the mount effect set, and it is a non-empty string. *)
Theorem session_id_fixed_for_activation
    (stored : option jsstring) (now rnd : jsstring) (es : list event) (c : Config) :
  run recognition es (activate stored now rnd) = Some c ->
  sessionId (view c) = sessionId (view (activate stored now rnd))
  /\ truthy (sessionId (view c)) = true.
Proof.
  intros Hrun.
  assert (Hgen : forall es c0 c1,
             run recognition es c0 = Some c1 ->
             sessionId (view c1) = sessionId (view c0)).
  { clear. induction es as [|e es IH]; simpl; intros c0 c1 Hr.
    - now injection Hr as <-.
    - destruct (enabled recognition e c0); [|discriminate].
      rewrite (IH _ _ Hr). apply step_sessionId. }
  split; [exact (Hgen es _ c Hrun)|].
  rewrite (Hgen es _ c Hrun).
  exact (proj1 (activation_inv_activate stored now rnd)).
Qed.

(** X4: at most one chat request is ever in flight, the busy flag is up
    exactly while one is, and none is in flight before the page is ready. *)
Theorem at_most_one_request_in_flight (c : Config) :
  reachable recognition c ->
  (chatPending c <= 1)%nat
  /\ (isLoading (view c) = true <-> chatPending c = 1%nat)
  /\ (chatPending c = 1%nat ->
      appStatus (view c) = Ready /\ historyPending c = false).
Proof.
  intros Hr. destruct (reachable_inv recognition c Hr) as (_ & Hh & Hn & Hp).
  rewrite Hp. destruct (isLoading (view c)) eqn:Hl.
  - split; [lia|]. split; [tauto|]. intros _.
    assert (Ha : appStatus (view c) = Ready).
    { destruct (appStatus (view c)); [|reflexivity|];
        (destruct Hn as [_ Hb]; [discriminate|discriminate]). }
    split; [exact Ha|].
    destruct (historyPending c); [|reflexivity].
    destruct Hh as [Hh _]. rewrite Hh in Ha; [discriminate|reflexivity].
  - split; [lia|]. split; [split; discriminate|discriminate].
Qed.

(** X5: an activation requests the history exactly once, for its session
    id, and writes local storage at most once, whatever happens afterwards. *)
Theorem history_requested_once (c : Config) :
  reachable recognition c ->
  exists sid,
    sessionId (view c) = Some sid
    /\ history_requests (performed c) = [sid]
    /\ (length (storage_writes (performed c)) <= 1)%nat.
Proof.
  intros Hr. destruct (requests_inv recognition c Hr) as (sid & H1 & H2 & H3 & _).
  exists sid. auto.
Qed.

(** X6: every chat request an activation has issued carries, in its
    [sessionId] field, the session id of the activation. *)
Theorem chat_requests_carry_session_id (c : Config) (body : FormData) :
  reachable recognition c ->
  In (fetch_chat body) (performed c) ->
  exists sid,
    sessionId (view c) = Some sid
    /\ In (lit "sessionId", FormText sid) body.
Proof.
  intros Hr Hin.
  destruct (requests_inv recognition c Hr) as (sid & H1 & _ & _ & H4).
  exists sid. split; [exact H1|].
  apply (proj1 (List.Forall_forall _ _) H4).
  unfold chat_requests. apply in_flat_map.
  exists (fetch_chat body). split; [exact Hin | now left].
Qed.

(** X7: the send button is enabled only when a click really sends. In any
    state an activation can reach, a click on the enabled button passes the
    guard of [handleSend]: the file input is reset, one request is issued
    with the form built from the state, the user entry is logged and one
    request is in flight. *)
Theorem enabled_send_button_sends (c : Config) :
  reachable recognition c ->
  enabled recognition ClickSend c = true ->
  send_guard (view c) = false
  /\ performed (step recognition ClickSend c)
     = performed c ++ [file_input_reset; fetch_chat (formData (view c))]
  /\ messages (view (step recognition ClickSend c))
     = messages (view c) ++ [userMessage (view c)]
  /\ chatPending (step recognition ClickSend c) = 1%nat.
Proof.
  intros Hr He.
  destruct (reachable_inv recognition c Hr) as (Hs & _ & _ & Hp).
  simpl in He. apply andb_true_iff in He as [Hv Hd].
  unfold send_button_disabled in Hd.
  apply negb_true_iff, orb_false_iff in Hd as [Hl Hd].
  assert (Hg : send_guard (view c) = false).
  { unfold send_guard. now rewrite Hd, Hs. }
  split; [exact Hg|].
  unfold step, run_handler. rewrite (handleSend_begin_accepts _ Hg).
  rewrite Hv, Hp, Hl. simpl. repeat split.
Qed.

(** X8: once an answer arrives, whatever it is, the page is usable again:
    the busy flag is down, nothing is in flight, the status is still
    [Ready], the text area takes input and key presses, and what the user
    typed or attached while waiting is untouched. *)
Theorem page_usable_after_answer
    (c : Config) (settles : fetch_result) (value key : jsstring) (shiftKey : bool) :
  reachable recognition c ->
  enabled recognition (ChatSettles settles) c = true ->
  isLoading (view (step recognition (ChatSettles settles) c)) = false
  /\ chatPending (step recognition (ChatSettles settles) c) = 0%nat
  /\ appStatus (view (step recognition (ChatSettles settles) c)) = Ready
  /\ enabled recognition (InputChange value)
       (step recognition (ChatSettles settles) c) = true
  /\ enabled recognition (KeyDown key shiftKey)
       (step recognition (ChatSettles settles) c) = true
  /\ input (view (step recognition (ChatSettles settles) c)) = input (view c)
  /\ selectedFile (view (step recognition (ChatSettles settles) c))
     = selectedFile (view c).
Proof.
  intros Hr He.
  destruct (reachable_inv recognition c Hr) as (_ & _ & Hn & Hp).
  simpl in He. apply Nat.ltb_lt in He.
  destruct (isLoading (view c)) eqn:Hl; [|lia].
  assert (Ha : appStatus (view c) = Ready).
  { destruct (appStatus (view c)); [|reflexivity|];
      (destruct Hn as [_ Hb]; [discriminate|discriminate]). }
  unfold step, run_handler, enabled, main_view.
  destruct (handleSend_resume_total (view c) settles) as (entry & eff & -> & _).
  simpl. rewrite Ha, Hp. repeat split.
Qed.

(** X9: the keyboard cannot send a blank message. With white space only in
    the text area and no pending attachment, a key press, Enter included,
    leaves the whole page as it was: nothing is logged, nothing is
    requested. *)
Theorem blank_key_press_changes_nothing
    (c : Config) (key : jsstring) (shiftKey : bool) :
  all_white (input (view c)) ->
  selectedFile (view c) = None ->
  step recognition (KeyDown key shiftKey) c = c.
Proof.
  intros Hw Hf.
  assert (Hg : send_guard (view c) = true).
  { unfold send_guard. now rewrite (trim_all_white _ Hw), Hf. }
  destruct c as [st hp cp pf]. simpl in Hg.
  unfold step, run_handler, handleKeyPress, view.
  destruct (str_eq key (lit "Enter") && negb shiftKey).
  - rewrite (handleSend_begin_rejects st Hg). simpl. now rewrite app_nil_r.
  - simpl. now rewrite app_nil_r.
Qed.

End ActivationExtras.

(** ** More on the send pipeline *)

(** X10: what an accepted send leaves behind. The text area and the
    attachment slot are emptied, so a second call of [handleSend] right
    away is a no-op; the user entry shows the preview that was pending; and
    the request carries a [file] field exactly when a file was pending, that
    file. *)
Theorem accepted_send_clears_composer (st : State) :
  send_guard st = false ->
  input (state_after (handleSend_begin st)) = []
  /\ selectedFile (state_after (handleSend_begin st)) = None
  /\ filePreview (state_after (handleSend_begin st)) = None
  /\ handleSend_begin (state_after (handleSend_begin st))
     = (Normal None, state_after (handleSend_begin st), [])
  /\ image (userMessage st) = filePreview st
  /\ (forall f, In (lit "file", FormFile f) (formData st)
                <-> selectedFile st = Some f).
Proof.
  intros Hg. rewrite (handleSend_begin_accepts st Hg).
  unfold state_after. simpl fst. simpl snd.
  repeat split; try reflexivity.
  - intros Hin. unfold formData in Hin.
    apply in_app_or in Hin as [[Hin|[Hin|[]]]|Hin]; try discriminate Hin.
    destruct (selectedFile st); simpl in Hin; [|contradiction].
    destruct Hin as [Hin|[]]. now injection Hin as ->.
  - intros Hf. unfold formData. rewrite Hf. apply in_or_app. right. now left.
Qed.

(** X11: an attachment can be sent without text. With white space only in
    the text area, a pending file and a session id, the guard lets the send
    through; the user entry has the empty text and the preview, and the form
    has the empty [message] and then the file. *)
Theorem attachment_only_send_is_accepted (st : State) (file : File) (sid : jsstring) :
  all_white (input st) ->
  selectedFile st = Some file ->
  sessionId st = Some sid -> sid <> [] ->
  send_guard st = false
  /\ userMessage st
     = {| sender := user; text := Some []; image := filePreview st |}
  /\ formData st
     = [(lit "sessionId", FormText sid); (lit "message", FormText []);
        (lit "file", FormFile file)].
Proof.
  intros Hw Hf Hs Hne.
  unfold send_guard, userMessage, formData.
  rewrite (trim_all_white _ Hw), Hf, Hs.
  destruct sid; [contradiction|]. repeat split.
Qed.

(** X12: a whole call of [handleSend] issues exactly one chat request when
    the guard lets it through and none otherwise, however the request
    settles; it never alerts, never writes local storage and never requests
    the history. *)
Theorem send_issues_one_request (st : State) (settles : fetch_result) :
  chat_requests (effects_of (handleSend settles st))
  = (if send_guard st then [] else [formData st])
  /\ alerts (effects_of (handleSend settles st)) = []
  /\ storage_writes (effects_of (handleSend settles st)) = []
  /\ history_requests (effects_of (handleSend settles st)) = [].
Proof.
  destruct (send_guard st) eqn:Hg.
  - rewrite (handleSend_rejects st settles Hg). repeat split.
  - assert (He : effects_of (handleSend settles st)
                 = effects_of (handleSend_begin st)
                   ++ effects_of (handleSend_resume settles
                                    (state_after (handleSend_begin st))))
      by now rewrite (handleSend_accepts st settles Hg).
    rewrite He, handleSend_resume_effects.
    assert (Hb : effects_of (handleSend_begin st)
                 = (if main_view st then [file_input_reset] else [])
                   ++ [fetch_chat (formData st)])
      by now rewrite (handleSend_begin_accepts st Hg).
    rewrite Hb.
    unfold chat_requests, alerts, storage_writes, history_requests.
    rewrite !flat_map_app.
    destruct (main_view st), (request_failed settles); repeat split.
Qed.

(** X13: the text a send logs and posts has no white space at either end,
    and trimming it again changes nothing. *)
Theorem logged_text_is_trimmed (st : State) :
  exists t,
    text (userMessage st) = Some t
    /\ In (lit "message", FormText t) (formData st)
    /\ trim t = t
    /\ (forall c r, t = c :: r -> isStrWhiteSpaceChar c = false)
    /\ (forall c r, t = r ++ [c] -> isStrWhiteSpaceChar c = false).
Proof.
  exists (trim (input st)). split; [reflexivity|]. split.
  - unfold formData. right. now left.
  - split; [apply trim_idempotent|]. split.
    + intros c r. apply trim_head.
    + intros c r. apply trim_last.
Qed.


(** X15: a failed history load writes its reason to the console and
    nowhere else: the error string of the non-2xx body, or [Failed to fetch
    history] when the body has none or an empty one, or the message of the
    rejection. Only the status changes, to [Error]; no alert is shown. *)
Theorem history_failure_logs_reason (st : State) (settles : fetch_result) :
  history_failed settles = true ->
  fetchHistory_resume settles st
  = (Normal tt,
     {| messages := messages st; input := input st;
        isLoading := isLoading st; isListening := isListening st;
        selectedFile := selectedFile st; filePreview := filePreview st;
        sessionId := sessionId st; appStatus := Error |},
     [console_error (lit "Failed to fetch history:")
        (history_failure_reason settles)]).
Proof.
  destruct settles as [[o [data|[m]]]|[m]]; simpl.
  - destruct o; simpl; [discriminate|]. intros _. reflexivity.
  - intros _. destruct o; reflexivity.
  - intros _. reflexivity.
Qed.

(** ** More on attachments, voice and keys *)

(** X16: [removeFile] is idempotent on the state, and it undoes any
    selection: removing after a file change, whatever was chosen, leaves
    the state that removing alone leaves. Only the two attachment fields
    are touched, and the file input is reset only when it is mounted. *)
Theorem removeFile_clears_whatever_was_chosen
    (st : State) (files : list File) (objectURL : jsstring) :
  state_after (removeFile (state_after (removeFile st)))
  = state_after (removeFile st)
  /\ state_after (removeFile (state_after (handleFileChange files objectURL st)))
     = state_after (removeFile st)
  /\ state_after (removeFile st)
     = {| messages := messages st; input := input st;
          isLoading := isLoading st; isListening := isListening st;
          selectedFile := None; filePreview := None;
          sessionId := sessionId st; appStatus := appStatus st |}
  /\ effects_of (removeFile st)
     = (if main_view st then [file_input_reset] else []).
Proof.
  unfold removeFile, handleFileChange, bind, get, fileInputRef_current,
    main_view, state_after, effects_of.
  destruct (hd_error files) as [file|];
    [destruct (startsWith (file_type file) (lit "image/"))|];
    simpl; destruct (appStatus st); repeat split.
Qed.

(** X17: the attachment slot is last-write-wins. Choosing an image after
    any earlier file change leaves exactly the state that choosing it alone
    would: the earlier choice leaves no trace. *)
Theorem attachment_last_write_wins
    (st : State) (earlier : list File) (url1 : jsstring)
    (file : File) (others : list File) (url2 : jsstring) :
  startsWith (file_type file) (lit "image/") = true ->
  state_after (handleFileChange (file :: others) url2
                 (state_after (handleFileChange earlier url1 st)))
  = state_after (handleFileChange (file :: others) url2 st).
Proof.
  intros Hi. unfold handleFileChange at 1 3. unfold hd_error. rewrite Hi.
  unfold handleFileChange, state_after.
  destruct (hd_error earlier) as [e|];
    [destruct (startsWith (file_type e) (lit "image/"))|]; reflexivity.
Qed.


(** X19: only a plain Enter sends. [handleKeyPress] runs [handleSend] when
    the key is exactly [Enter] and Shift is up; for every other key, and for
    Shift+Enter, it does nothing. *)
Theorem only_plain_enter_sends (key : jsstring) (shiftKey : bool) (st : State) :
  (key = lit "Enter" /\ shiftKey = false
   /\ handleKeyPress key shiftKey st = handleSend_begin st)
  \/ ((key <> lit "Enter" \/ shiftKey = true)
      /\ handleKeyPress key shiftKey st = (Normal None, st, [])).
Proof.
  unfold handleKeyPress.
  destruct (str_eq key (lit "Enter")) eqn:Hk.
  - apply str_eq_spec in Hk. destruct shiftKey.
    + right. split; [now right | reflexivity].
    + left. repeat split; assumption.
  - right. split; [|reflexivity]. left. intros Heq.
    apply str_eq_spec in Heq. congruence.
Qed.

Section VoiceAndView.

Variable recognition : option Recognition.

(** X20: the voice capability stays out of the conversation. A press on the
    microphone and the recogniser's result, error and end callbacks leave the
    log, the busy flag, the pending attachment, the session id, the status
    and what is in flight as they were, and perform no request; a
    recognition error changes no state at all. *)
Theorem voice_events_leave_conversation_alone (e : event) (c : Config) :
  is_voice_event e = true ->
  messages (view (step recognition e c)) = messages (view c)
  /\ isLoading (view (step recognition e c)) = isLoading (view c)
  /\ selectedFile (view (step recognition e c)) = selectedFile (view c)
  /\ filePreview (view (step recognition e c)) = filePreview (view c)
  /\ sessionId (view (step recognition e c)) = sessionId (view c)
  /\ appStatus (view (step recognition e c)) = appStatus (view c)
  /\ chatPending (step recognition e c) = chatPending c
  /\ historyPending (step recognition e c) = historyPending c
  /\ chat_requests (performed (step recognition e c))
     = chat_requests (performed c)
  /\ (forall err, e = RecognitionError err ->
        view (step recognition e c) = view c
        /\ performed (step recognition e c)
           = performed c ++ [console_error (lit "Speech recognition error") err]).
Proof.
  intros He. destruct c as [st hp cp pf].
  destruct e; try discriminate He;
    unfold step, run_handler, handleVoiceListen, bind, get, view.
  - destruct recognition; [destruct (isListening st)|]; simpl;
      rewrite chat_requests_app, app_nil_r; repeat split; discriminate.
  - simpl. rewrite app_nil_r. repeat split; discriminate.
  - simpl. rewrite chat_requests_app, app_nil_r.
    do 9 (split; [reflexivity|]).
    intros e1 Heq. injection Heq as <-. split; reflexivity.
  - simpl. rewrite app_nil_r. repeat split; discriminate.
Qed.

Lemma message_bubbles_offer_nothing (l : list Message) :
  forall f : nat -> Message -> node,
    (forall i m, live_handlers (f i m) = []) ->
    flat_map live_handlers (imap f l) = [].
Proof.
  induction l as [|m l IH]; intros f Hf; simpl; [reflexivity|].
  rewrite Hf. simpl. apply IH. intros i m'. apply Hf.
Qed.

Lemma render_message_offers_nothing (i : nat) (m : Message) :
  live_handlers (render_message i m) = [].
Proof.
  unfold render_message.
  destruct (truthy (image m)), (truthy (text m)); reflexivity.
Qed.

(** The handlers within reach in the main view. *)
Lemma live_handlers_ready (st : State) :
  appStatus st = Ready ->
  live_handlers (App recognition st)
  = (if truthy (filePreview st) then [on_removeFile] else [])
    ++ [on_handleFileChange]
    ++ (if isLoading st then [] else [on_openFileDialog])
    ++ (if present recognition && negb (isLoading st)
        then [on_handleVoiceListen] else [])
    ++ (if isLoading st then [] else [on_setInput; on_handleKeyPress])
    ++ (if send_button_disabled st then [] else [on_handleSend]).
Proof.
  intros Ha. unfold App. rewrite Ha.
  cbn [live_handlers flat_map is_disabled handlers_of existsb app].
  rewrite !flat_map_app.
  rewrite (message_bubbles_offer_nothing (messages st) render_message
             render_message_offers_nothing).
  destruct (isLoading st), (truthy (filePreview st)), (present recognition),
    (send_button_disabled st), (isListening st); reflexivity.
Qed.

(** X21: the rendered page offers exactly the events the model lets
    through. For every handler of the component, an element that is not
    disabled carries it in what [App] renders exactly when the corresponding
    event is enabled: nothing at all while loading or after a failed load,
    and in the main view according to the [disabled] attributes and the
    conditional children. *)
Theorem rendered_controls_match_enabled_events
    (c : Config) (key value objectURL : jsstring) (shiftKey : bool)
    (files : list File) :
  wired on_handleSend (App recognition (view c)) = enabled recognition ClickSend c
  /\ wired on_handleKeyPress (App recognition (view c))
     = enabled recognition (KeyDown key shiftKey) c
  /\ wired on_setInput (App recognition (view c))
     = enabled recognition (InputChange value) c
  /\ wired on_handleFileChange (App recognition (view c))
     = enabled recognition (FileChange files objectURL) c
  /\ wired on_removeFile (App recognition (view c))
     = enabled recognition ClickRemoveFile c
  /\ wired on_handleVoiceListen (App recognition (view c))
     = enabled recognition ClickMicrophone c.
Proof.
  destruct c as [st hp cp pf]. unfold wired, enabled, main_view, view.
  destruct (appStatus st) eqn:Ha.
  - unfold App. rewrite Ha. repeat split.
  - rewrite (live_handlers_ready st Ha).
    destruct (isLoading st), (truthy (filePreview st)), (present recognition),
      (send_button_disabled st); repeat split.
  - unfold App. rewrite Ha. repeat split.
Qed.




End VoiceAndView.

(** ** Runs of the extra properties on the sample activation *)

Lemma sample_waiting_reachable (recognition : option Recognition) :
  reachable recognition (step recognition ClickSend (sample_ready (lit "hello"))).
Proof.
  apply reach_step; [apply sample_ready_reachable | vm_compute; reflexivity].
Defined.

Lemma session_id_fixed_for_activation_witness :
  sessionId (view (sample_ready (lit "hello")))
  = sessionId (view sample_activation)
  /\ truthy (sessionId (view (sample_ready (lit "hello")))) = true.
Proof.
  apply (session_id_fixed_for_activation None None
           (lit "1700000000000") (lit "k3j9x2m1q")
           [HistorySettles (history_loaded []); InputChange (lit "hello")]
           (sample_ready (lit "hello"))).
  vm_compute. reflexivity.
Defined.

Lemma at_most_one_request_in_flight_witness :
  (chatPending (step None ClickSend (sample_ready (lit "hello"))) <= 1)%nat.
Proof.
  apply (at_most_one_request_in_flight None
           (step None ClickSend (sample_ready (lit "hello")))).
  apply sample_waiting_reachable.
Defined.

Lemma history_requested_once_witness :
  exists sid,
    sessionId (view (step None ClickSend (sample_ready (lit "hello")))) = Some sid
    /\ history_requests
         (performed (step None ClickSend (sample_ready (lit "hello")))) = [sid]
    /\ (length (storage_writes
                  (performed (step None ClickSend (sample_ready (lit "hello")))))
        <= 1)%nat.
Proof.
  apply (history_requested_once None
           (step None ClickSend (sample_ready (lit "hello")))).
  apply sample_waiting_reachable.
Defined.

Lemma chat_requests_carry_session_id_witness :
  exists sid,
    sessionId (view (step None ClickSend (sample_ready (lit "hello")))) = Some sid
    /\ In (lit "sessionId", FormText sid)
         (formData (view (sample_ready (lit "hello")))).
Proof.
  apply (chat_requests_carry_session_id None
           (step None ClickSend (sample_ready (lit "hello")))
           (formData (view (sample_ready (lit "hello"))))).
  - apply sample_waiting_reachable.
  - vm_compute. right. right. right. left. reflexivity.
Defined.

Lemma enabled_send_button_sends_witness :
  send_guard (view (sample_ready (lit "hello"))) = false
  /\ performed (step None ClickSend (sample_ready (lit "hello")))
     = performed (sample_ready (lit "hello"))
       ++ [file_input_reset;
           fetch_chat (formData (view (sample_ready (lit "hello"))))]
  /\ messages (view (step None ClickSend (sample_ready (lit "hello"))))
     = messages (view (sample_ready (lit "hello")))
       ++ [userMessage (view (sample_ready (lit "hello")))]
  /\ chatPending (step None ClickSend (sample_ready (lit "hello"))) = 1%nat.
Proof.
  apply (enabled_send_button_sends None (sample_ready (lit "hello"))).
  - apply sample_ready_reachable.
  - vm_compute. reflexivity.
Defined.

Lemma page_usable_after_answer_witness :
  isLoading (view (step None (ChatSettles network_error)
                     (step None ClickSend (sample_ready (lit "hello"))))) = false
  /\ enabled None (InputChange (lit "again"))
       (step None (ChatSettles network_error)
          (step None ClickSend (sample_ready (lit "hello")))) = true.
Proof.
  destruct (page_usable_after_answer None
              (step None ClickSend (sample_ready (lit "hello")))
              network_error (lit "again") (lit "a") false)
    as (H1 & _ & _ & H4 & _).
  - apply sample_waiting_reachable.
  - vm_compute. reflexivity.
  - split; [exact H1 | exact H4].
Defined.

Lemma blank_key_press_changes_nothing_witness :
  step None (KeyDown (lit "Enter") false) (sample_ready (lit "  "))
  = sample_ready (lit "  ").
Proof.
  apply (blank_key_press_changes_nothing None (sample_ready (lit "  "))
           (lit "Enter") false).
  - vm_compute. repeat constructor.
  - vm_compute. reflexivity.
Defined.

Lemma accepted_send_clears_composer_witness :
  input (state_after (handleSend_begin (view (sample_ready (lit "hello"))))) = []
  /\ handleSend_begin
       (state_after (handleSend_begin (view (sample_ready (lit "hello")))))
     = (Normal None,
        state_after (handleSend_begin (view (sample_ready (lit "hello")))), []).
Proof.
  destruct (accepted_send_clears_composer (view (sample_ready (lit "hello"))))
    as (H1 & _ & _ & H4 & _).
  - vm_compute. reflexivity.
  - split; [exact H1 | exact H4].
Defined.

Lemma attachment_only_send_is_accepted_witness :
  send_guard
    (state_after (handleFileChange [sample_png] (lit "blob:1")
                    (view (sample_ready [])))) = false.
Proof.
  apply (attachment_only_send_is_accepted
           (state_after (handleFileChange [sample_png] (lit "blob:1")
                           (view (sample_ready []))))
           sample_png (lit "session_1700000000000_k3j9x2m1q")).
  - vm_compute. constructor.
  - vm_compute. reflexivity.
  - vm_compute. reflexivity.
  - vm_compute. discriminate.
Defined.

Lemma history_failure_logs_reason_witness :
  effects_of (fetchHistory_resume (server_error (lit "db down"))
                (view sample_activation))
  = [console_error (lit "Failed to fetch history:") (lit "db down")].
Proof.
  rewrite (history_failure_logs_reason (view sample_activation)
             (server_error (lit "db down"))).
  - vm_compute. reflexivity.
  - vm_compute. reflexivity.
Defined.

Lemma attachment_last_write_wins_witness :
  state_after (handleFileChange [sample_png] (lit "blob:2")
                 (state_after (handleFileChange
                                 [{| file_name := lit "dog.jpg";
                                     file_type := lit "image/jpeg" |}]
                                 (lit "blob:1") (view (sample_ready [])))))
  = state_after (handleFileChange [sample_png] (lit "blob:2")
                   (view (sample_ready []))).
Proof.
  apply (attachment_last_write_wins (view (sample_ready []))
           [{| file_name := lit "dog.jpg"; file_type := lit "image/jpeg" |}]
           (lit "blob:1") sample_png [] (lit "blob:2")).
  vm_compute. reflexivity.
Defined.

Lemma voice_events_leave_conversation_alone_witness :
  messages (view (step (Some new_SpeechRecognition) ClickMicrophone
                    (sample_ready (lit "hello"))))
  = messages (view (sample_ready (lit "hello"))).
Proof.
  apply (voice_events_leave_conversation_alone (Some new_SpeechRecognition)
           ClickMicrophone (sample_ready (lit "hello"))).
  reflexivity.
Defined.


Lemma send_exchange_interleaved_witness :
  messages
    (view (step (Some new_SpeechRecognition) (ChatSettles (replied (lit "hi")))
             (step (Some new_SpeechRecognition)
                (FileChange [sample_png] (lit "blob:1"))
                (step (Some new_SpeechRecognition) (RecognitionResult (lit "more"))
                   (step (Some new_SpeechRecognition) ClickSend
                      (sample_ready (lit "hello")))))))
  = messages (view (sample_ready (lit "hello")))
    ++ [userMessage (view (sample_ready (lit "hello")));
        {| sender := bot; text := Some (lit "hi"); image := None |}].
Proof.
  apply (send_exchange_interleaved (Some new_SpeechRecognition)
           (sample_ready (lit "hello"))
           (step (Some new_SpeechRecognition)
              (FileChange [sample_png] (lit "blob:1"))
              (step (Some new_SpeechRecognition) (RecognitionResult (lit "more"))
                 (step (Some new_SpeechRecognition) ClickSend
                    (sample_ready (lit "hello")))))
           [RecognitionResult (lit "more"); FileChange [sample_png] (lit "blob:1")]
           (lit "hi")).
  - apply sample_ready_reachable.
  - vm_compute. reflexivity.
  - vm_compute. reflexivity.
  - vm_compute. reflexivity.
  - vm_compute. reflexivity.
Defined.
